(** * pyjacket.filetools.image._image : lazy image handles and dispatch

    A shallow embedding of [src/pyjacket/filetools/image/_image.py] and the
    properties of its slice arithmetic, metadata accessors, lazy handle and
    [imread] dispatch.

    Python integers are [Z]; [None]-able values are [option]; exceptions are
    values of [exn] carried by the result type [res]; Python lists that are
    mutated in place live in an explicit store. *)

From Stdlib Require Import QArith Qcanon Ascii String.
From stdpp Require Import base numbers list option strings gmap pretty.

Local Open Scope string_scope.
Local Open Scope list_scope.
Local Open Scope Z_scope.

(** ** Exceptions and results *)

(** The exception classes that the module raises or lets escape, each with
    the message it is raised with. *)
Inductive exn : Type :=
  | ValueError (msg : string)
  | IndexError (msg : string)
  | TypeError (msg : string)
  | NotImplementedError (msg : string)
  | ZeroDivisionError (msg : string)
  | OverflowError (msg : string)
  | OSError (msg : string).

Inductive res (A : Type) : Type :=
  | Ok (a : A)
  | Err (e : exn).
Arguments Ok {A} a.
Arguments Err {A} e.

Global Instance res_ret : MRet res := fun _ a => Ok a.
Global Instance res_bind : MBind res := fun _ _ f m =>
  match m with
  | Ok a => f a
  | Err e => Err e
  end.

Fixpoint res_mapM {A B} (f : A → res B) (l : list A) : res (list B) :=
  match l with
  | [] => Ok []
  | a :: l' => b ← f a; bs ← res_mapM f l'; Ok (b :: bs)
  end.

Definition is_ok {A} (r : res A) : bool :=
  match r with Ok _ => true | Err _ => false end.

(** ** Python slices *)

(** [slice(start, stop, step)]; each component is an integer or [None]. *)
Record pyslice : Type := Slice {
  slice_start : option Z;
  slice_stop : option Z;
  slice_step : option Z;
}.

Global Instance pyslice_eq_dec : EqDecision pyslice.
Proof. solve_decision. Defined.

(** [slice(None, None, None)], the full-range default. *)
Definition slice_all : pyslice := Slice None None None.

(** One bound of [slice.indices]: a given bound is shifted by the length when
    negative and clamped to [lower, upper]; a missing bound takes [dflt]. *)
Definition clamp_bound (b : option Z) (dflt lower upper length : Z) : Z :=
  match b with
  | None => dflt
  | Some v =>
      if v <? 0 then Z.max (v + length) lower
      else Z.min v upper
  end.

(** [s.indices(length)], the builtin that resolves a slice against a
    sequence length. *)
Definition slice_indices (s : pyslice) (length : Z) : res (Z * Z * Z) :=
  if length <? 0 then Err (ValueError "length should not be negative")
  else
    let step := default 1 (slice_step s) in
    if step =? 0 then Err (ValueError "slice step cannot be zero")
    else
      let neg := step <? 0 in
      let lower := if neg then -1 else 0 in
      let upper := if neg then length - 1 else length in
      let start :=
        clamp_bound (slice_start s) (if neg then upper else lower) lower upper length in
      let stop :=
        clamp_bound (slice_stop s) (if neg then lower else upper) lower upper length in
      Ok (start, stop, step).

(** [slice_length(s, n)] : how many elements belong to a slice of an iterable
    of size [n].  [//] is floor division, which is [Z.div]. *)
Definition slice_length (s : pyslice) (n : Z) : res Z :=
  '(start, stop, step) ← slice_indices s n;
  if 0 <? step then
    Ok (Z.max 0 ((stop - start + (step - 1)) / step))
  else if step <? 0 then
    Ok (Z.max 0 ((start - stop - (step + 1)) / (- step)))
  else
    Err (ValueError "Slice step cannot be zero").

(** ** [range] *)

Definition range_continues (i stop step : Z) : bool :=
  if 0 <? step then i <? stop else stop <? i.

Fixpoint range_loop (fuel : nat) (i stop step : Z) : list Z :=
  match fuel with
  | O => []
  | S fuel' =>
      if range_continues i stop step
      then i :: range_loop fuel' (i + step) stop step
      else []
  end.

(** [list(range(start, stop, step))].  Every step moves the index by at least
    one, so [|stop - start|] iterations exhaust the range. *)
Definition py_range (start stop step : Z) : res (list Z) :=
  if step =? 0 then Err (ValueError "range() arg 3 must not be zero")
  else Ok (range_loop (Z.to_nat (Z.abs (stop - start))) start stop step).

(** Ceiling of [a / b] for a positive [b]. *)
Definition ceil_div (a b : Z) : Z := - ((- a) / b).

(** ** Arrays

    A numpy array is its shape together with the element found at each index
    tuple; only index tuples inside the shape are meaningful. *)
Record ndarray : Type := NDArray {
  nd_shape : list nat;
  nd_item : list nat → Z;
}.

Definition nd_ndim (a : ndarray) : nat := length (nd_shape a).

(** [np.stack(arrays, axis=-1)] : the arrays become the entries of a new
    trailing axis. *)
Definition np_stack_last (arrays : list ndarray) : res ndarray :=
  match arrays with
  | [] => Err (ValueError "need at least one array to stack")
  | a0 :: rest =>
      if forallb (fun a => bool_decide (nd_shape a = nd_shape a0)) rest then
        Ok {| nd_shape := nd_shape a0 ++ [length arrays];
              nd_item := fun idx =>
                match last idx with
                | Some c =>
                    match arrays !! c with
                    | Some a => nd_item a (removelast idx)
                    | None => 0
                    end
                | None => 0
                end |}
      else Err (ValueError "all input arrays must have the same shape")
  end.

(** Position of the first occurrence of [d] in [axes]. *)
Fixpoint index_of (d : nat) (axes : list nat) : nat :=
  match axes with
  | [] => O
  | ax :: axes' => if decide (ax = d) then O else S (index_of d axes')
  end.

(** [np.transpose(a, axes)] : axis [k] of the result is axis [axes[k]] of
    [a]. *)
Definition np_transpose (a : ndarray) (axes : list nat) : res ndarray :=
  if bool_decide (axes ≡ₚ seq 0 (nd_ndim a)) then
    Ok {| nd_shape := (fun ax => nd_shape a !!! ax) <$> axes;
          nd_item := fun idx =>
            nd_item a ((fun d => idx !!! index_of d axes) <$> seq 0 (nd_ndim a)) |}
  else Err (ValueError "axes don't match array").

(** One entry of an index tuple: an integer or a slice. *)
Inductive index_item : Type :=
  | IxInt (i : Z)
  | IxSlice (s : pyslice).

(** The conversion of an integer of an index tuple to a C index, a signed
    integer of 64 bits.  An integer of 64 bits that needs the sign bit
    raises [OverflowError]; a wider one is no integer index at all, which
    is an [IndexError]. *)
Definition index_as_intp (i : Z) : res Z :=
  if (- 2 ^ 63 <=? i) && (i <? 2 ^ 63) then Ok i
  else if (2 ^ 63 <=? i) && (i <? 2 ^ 64) then
    Err (OverflowError "Python int too large to convert to C long")
  else
    Err (IndexError "arrays used as indices must be of integer (or boolean) type").

(** The first pass over an index tuple: every integer is converted to a C
    index, in order, before any axis is looked at. *)
Fixpoint prepare_index (ix : list index_item) : res () :=
  match ix with
  | [] => Ok ()
  | IxInt i :: ix' => _ ← index_as_intp i; prepare_index ix'
  | IxSlice _ :: ix' => prepare_index ix'
  end.

(** The second pass: resolves an index tuple, whose integers
    [prepare_index] has converted, against a shape, axis by axis: the shape of the
    selection and the map from an index of the selection to the index of the
    same element in the array.  An integer fixes its axis and removes it; a
    slice keeps the positions of [range] over [s.indices(n)]; axes past the tuple
    are kept whole. *)
Fixpoint index_plan (axis : nat) (ix : list index_item) (shape : list nat)
  : res (list nat * (list nat → list nat)) :=
  match ix, shape with
  | [], _ => Ok (shape, fun idx => idx)
  | _ :: _, [] => Err (IndexError "too many indices for array")
  | IxInt i :: ix', n :: shape' =>
      if (i <? - Z.of_nat n) || (Z.of_nat n <=? i) then
        Err (IndexError ("index " +:+ pretty i +:+ " is out of bounds for axis "
                         +:+ pretty axis +:+ " with size " +:+ pretty n))
      else
        let j := Z.to_nat (if i <? 0 then i + Z.of_nat n else i) in
        '(shape'', f) ← index_plan (S axis) ix' shape';
        Ok (shape'', fun idx => j :: f idx)
  | IxSlice s :: ix', n :: shape' =>
      '(start, stop, step) ← slice_indices s (Z.of_nat n);
      picked ← py_range start stop step;
      '(shape'', f) ← index_plan (S axis) ix' shape';
      Ok (length picked :: shape'',
          fun idx => Z.to_nat (picked !!! hd O idx) :: f (tail idx))
  end.

(** [a[ix]] for a tuple of integers and slices (basic indexing): the
    integers are converted, the entries are counted against the dimensions,
    and the tuple is resolved against the shape. *)
Definition nd_getitem (a : ndarray) (ix : list index_item) : res ndarray :=
  _ ← prepare_index ix;
  if (nd_ndim a <? length ix)%nat then
    Err (IndexError "too many indices for array")
  else
    '(shape', f) ← index_plan 0 ix (nd_shape a);
    Ok {| nd_shape := shape'; nd_item := fun idx => nd_item a (f idx) |}.

(** ** Metadata *)

Record ExifTag : Type := {
  tag_name : string;
  tag_value : option (list Z);   (* tuple or None *)
}.

Record Metadata : Type := {
  meta_filename : string;
  exif : gmap Z ExifTag;
}.

(** [Metadata.get(i, default)] *)
Definition meta_get (m : Metadata) (i : Z) (dflt : option (list Z))
  : option (list Z) :=
  match exif m !! i with
  | Some x => tag_value x
  | None => dflt
  end.

(** [Fraction(numerator, denominator)] : the exact rational, or
    [ZeroDivisionError]. *)
Definition Fraction (n d : Z) : res Qc :=
  if d =? 0 then
    Err (ZeroDivisionError ("Fraction(" +:+ pretty n +:+ ", 0)"))
  else Ok (Q2Qc (inject_Z n) / Q2Qc (inject_Z d))%Qc.

(** [Fraction] applied to the unpacked tuple [x] of integers. *)
Definition Fraction_star (x : list Z) : res Qc :=
  match x with
  | [] => Ok (Q2Qc (inject_Z 0))
  | [n] => Ok (Q2Qc (inject_Z n))
  | [n; d] => Fraction n d
  | _ =>
      Err (TypeError ("Fraction.__new__() takes from 1 to 3 positional arguments but "
                      +:+ pretty (S (length x)) +:+ " were given"))
  end.

(** A number returned by [resolution]: the integer literal [1] or a float. *)
Inductive pynum (F : Type) : Type :=
  | PyInt (z : Z)
  | PyFloat (x : F).
Arguments PyInt {F} z.
Arguments PyFloat {F} x.

Section Resolution.

(** Floating point numbers and the conversion [float(q)] of an exact
    rational, which rounds to the nearest float or raises
    [OverflowError]. *)
Context {F : Type} (to_float : Qc → res F).

(** [float(Fraction( *x)) if x else 1] *)
Definition tag_resolution (x : option (list Z)) : res (pynum F) :=
  match x with
  | None | Some [] => Ok (PyInt 1)
  | Some t => q ← Fraction_star t; v ← to_float q; Ok (PyFloat v)
  end.

(** [Metadata.resolution] *)
Definition resolution (m : Metadata) : res (pynum F * pynum F) :=
  let x := meta_get m 282 None in
  let y := meta_get m 283 None in
  x ← tag_resolution x;
  y ← tag_resolution y;
  Ok (y, x).

End Resolution.

(** ** Strings *)

(** ['.' in s] *)
Fixpoint contains_char (c : Ascii.ascii) (s : string) : bool :=
  match s with
  | EmptyString => false
  | String c' s' => if Ascii.eqb c' c then true else contains_char c s'
  end.

(** [s.split(sep)] for a one-character separator. *)
Fixpoint split_on (sep : Ascii.ascii) (s : string) : list string :=
  match s with
  | EmptyString => [EmptyString]
  | String c s' =>
      if Ascii.eqb c sep then EmptyString :: split_on sep s'
      else
        match split_on sep s' with
        | piece :: pieces => String c piece :: pieces
        | [] => [String c EmptyString]
        end
  end.

(** [filepath.split('.')[-1]] *)
Definition extension (filepath : string) : string :=
  List.last (split_on "."%char filepath) EmptyString.

(** ** The store

    The [slices] attribute of a handle is a Python list, assigned to by index.
    Lists are objects of a store and a handle holds the location of its
    list, so that two handles sharing a list would see each other's
    assignments. *)
Abbreviation loc := nat (only parsing).
Abbreviation heap := (list (list pyslice)) (only parsing).

(** Computations that read and update the store and may raise. *)
Definition St (A : Type) : Type := heap → res A * heap.

Global Instance St_ret : MRet St := fun _ a σ => (Ok a, σ).
Global Instance St_bind : MBind St := fun _ _ f m σ =>
  match m σ with
  | (Ok a, σ') => f a σ'
  | (Err e, σ') => (Err e, σ')
  end.

Definition lift {A} (r : res A) : St A := fun σ => (r, σ).

(** A new list object. *)
Definition alloc (l : list pyslice) : St loc :=
  fun σ => (Ok (length σ), σ ++ [l]).

(** The current contents of a list object. *)
Definition load (r : loc) : St (list pyslice) :=
  fun σ => (Ok (default [] (σ !! r)), σ).

(** [lst[i] = s] for a non-negative [i]. *)
Definition store_item (r : loc) (i : nat) (s : pyslice) : St () :=
  fun σ =>
    let l := default [] (σ !! r) in
    if (i <? length l)%nat then (Ok (), <[r := <[i := s]> l]> σ)
    else (Err (IndexError "list assignment index out of range"), σ).

(** [channel or 1] *)
Definition channel_or_1 (channel : option Z) : Z :=
  match channel with
  | None => 1
  | Some c => if c =? 0 then 1 else c
  end.

(** The functions [imread] looks up for eager reading. *)
Inductive reader : Type :=
  | tif_read
  | imageio_imread
  | nd2_read
  | avi_read.

(** What is used as an index on a handle.  The entries of a tuple are slices,
    as the annotation [slices: list[slice]] has it. *)
Inductive key : Type :=
  | KInt (i : Z)
  | KSlice (s : pyslice)
  | KTuple (ss : list pyslice)
  | KList (l : list Z)
  | KStr (s : string)
  | KNone.

(** The functions [imwrite] looks up. *)
Inductive writer : Type :=
  | tif_write
  | mp4_write.

(** One call [tiff.write(frame, resolution=..., metadata=...)] of
    [imwrite_lazy], with floats [F] and the metadata dictionary [D]. *)
Record page (F D : Type) : Type := Page {
  page_frame : ndarray;
  page_resolution : pynum F * pynum F;
  page_metadata : D;
}.
Arguments Page {F D} _ _ _.
Arguments page_frame {F D} _.
Arguments page_resolution {F D} _.
Arguments page_metadata {F D} _.

(** ** A small world

    Two TIFF files and the readers over them, on which the statements below
    are instantiated: [stack.tif] holds 10 planes of 20 by 30 pixels,
    [rgb.tif] holds 4 frames of 2 channels of 3 by 5 pixels.  Pixel values
    encode the plane and the position. *)
Module Sample.

Definition series : Type := list nat.

Definition series_shape (d : series) : list nat := d.

Definition exif_tags : gmap Z ExifTag :=
  {[ 282 := {| tag_name := "XResolution"; tag_value := Some [300; 4] |} ]}.

Definition read_exif (f : string) : res (gmap Z ExifTag) := Ok exif_tags.

Definition open_series (f : string) : res series :=
  if decide (f = "stack.tif") then Ok [10; 20; 30]%nat
  else if decide (f = "rgb.tif") then Ok [4; 2; 3; 5]%nat
  else Err (OSError "No such file or directory").

Definition plane_count (d : series) : nat :=
  foldr Nat.mul 1%nat (take (length d - 2) d).

(** Planes are indexed like a Python list. *)
Definition asarray (d : series) (k : Z) : res ndarray :=
  let n := Z.of_nat (plane_count d) in
  if (k <? - n) || (n <=? k) then Err (IndexError "list index out of range")
  else Ok {| nd_shape := drop (length d - 2) d;
             nd_item := fun idx =>
               100 * (k mod n) + 10 * Z.of_nat (idx !!! 0%nat)
               + Z.of_nat (idx !!! 1%nat) |}.

Definition digits (idx : list nat) : Z :=
  foldl (fun acc i => 10 * acc + Z.of_nat i) 0 idx.

Definition read_with (r : reader) (f : string) : res ndarray :=
  if decide (f = "rgb.tif") then
    Ok {| nd_shape := [2; 3; 4; 5]%nat; nd_item := digits |}
  else
    Ok {| nd_shape := [2; 4; 5]%nat; nd_item := digits |}.

Definition metadata (tags : gmap Z ExifTag) : Metadata :=
  {| meta_filename := "stack.tif"; exif := tags |}.

(** A decoder that cannot read plane 2. *)
Definition broken_asarray (d : series) (k : Z) : res ndarray :=
  if k =? 2 then Err (OSError "corrupted page") else asarray d k.

Definition to_float (q : Qc) : res Qc := Ok q.

Definition meta_dict (m : Metadata) : gmap Z ExifTag := exif m.

Definition tiff_open (f : string) : res () := Ok ().

Definition tiff_write (written : list (page Qc (gmap Z ExifTag)))
    (p : page Qc (gmap Z ExifTag)) : res () := Ok ().

End Sample.

Section Image.

(** The collaborators of the module: the EXIF reader and the format
    readers of the package, and the TIFF decoder.  [series] is the page
    series of an open TIFF file, [series_shape] its [shape] (whose length
    is its [ndim]), [asarray d k] decodes plane [k]. *)
Context {series : Type}.
Context (series_shape : series → list nat).
Context (read_exif : string → res (gmap Z ExifTag)).
Context (open_series : string → res series).
Context (asarray : series → Z → res ndarray).
Context (read_with : reader → string → res ndarray).

(** [Metadata(filename)] : every extension is read by [_tif.read_exif]. *)
Definition Metadata_init (filename : string) : res Metadata :=
  e ← read_exif filename;
  Ok {| meta_filename := filename; exif := e |}.

(** A handle.  [TifImageHandle] is the one class that implements [ndim],
    [shape], [get_data] and [get]; on the base class these raise
    [NotImplementedError], its constructor included, so every handle is a
    TIFF handle.  The attribute [slices] is the location of a list. *)
Record ImageHandle : Type := {
  filename : string;
  channel : Z;
  meta : Metadata;
  data : series;
  slices : loc;
}.

(** [TifImageHandle.ndim] *)
Definition ndim (h : ImageHandle) : nat := length (series_shape (data h)).

(** [TifImageHandle.shape] : the channel axis becomes the last one. *)
Definition shape (h : ImageHandle) : list nat :=
  if (ndim h <? 4)%nat then series_shape (data h)
  else
    let s := series_shape (data h) in
    [s !!! 0%nat; s !!! 3%nat; s !!! 2%nat; s !!! 1%nat].

(** [TifImageHandle.get_data] *)
Definition get_data (filename : string) : res series := open_series filename.

(** [TifImageHandle(filename, channel)], through [ImageHandle.__init__]. *)
Definition TifImageHandle (filename : string) (channel : option Z)
  : St ImageHandle :=
  m ← lift (Metadata_init filename);
  d ← lift (get_data filename);
  r ← alloc (replicate (length (series_shape d)) slice_all);
  mret {| filename := filename; channel := channel_or_1 channel;
          meta := m; data := d; slices := r |}.

(** [t[i]] on a tuple of dimensions. *)
Definition shape_item (sh : list nat) (i : nat) : res nat :=
  match sh !! i with
  | Some n => Ok n
  | None => Err (IndexError "tuple index out of range")
  end.

(** The planes [get] decodes for frame [i] of a 4-dimensional file. *)
Definition channel_keys (i : Z) (num_channels : nat) : list Z :=
  (fun di => i + Z.of_nat di) <$> seq 0 num_channels.

(** The decoding half of [TifImageHandle.get], after its bound check: the
    channels of a frame of a 4-dimensional file are separate planes, which
    are decoded one by one and stacked. *)
Definition decode_frame (h : ImageHandle) (i : Z) : res ndarray :=
  if (ndim h =? 4)%nat then
    num_channels ← shape_item (shape h) 3;
    let i := i * Z.of_nat num_channels in
    stack ← res_mapM (asarray (data h)) (channel_keys i num_channels);
    np_stack_last stack
  else
    asarray (data h) i.

(** [TifImageHandle.get] *)
Definition get (h : ImageHandle) (i : Z) : res ndarray :=
  N ← shape_item (shape h) 0;
  if negb ((- Z.of_nat N <? i) && (i <=? Z.of_nat N)) then
    Err (IndexError "Frame index out of range")
  else decode_frame h i.

(** [ImageHandle.slice_shape] *)
Definition slice_shape (h : ImageHandle) : St (list Z) :=
  l ← load (slices h);
  lift (res_mapM (fun '(s, n) => slice_length s (Z.of_nat n)) (zip l (shape h))).

(** [ImageHandle.copy] *)
Definition copy (h : ImageHandle) : St ImageHandle :=
  TifImageHandle (filename h) (Some (channel h)).

(** [lst[0]] on a list of slices. *)
Definition first_slice (l : list pyslice) : res pyslice :=
  match l with
  | s :: _ => Ok s
  | [] => Err (IndexError "list index out of range")
  end.

(** [list(handle)] : the frames [ImageHandle.__iter__] yields, in order. *)
Definition iter_frames (h : ImageHandle) : St (list ndarray) :=
  l ← load (slices h);
  s0 ← lift (first_slice l);
  N ← lift (shape_item (shape h) 0);
  '(start, stop, step) ← lift (slice_indices s0 (Z.of_nat N));
  idxs ← lift (py_range start stop step);
  lift (res_mapM (fun i => frame ← get h i;
                           nd_getitem frame (IxSlice <$> tail l)) idxs).

(** The loop of the tuple case of [__getitem__], from position [i] on. *)
Fixpoint assign_slices (r : loc) (i : nat) (val : list pyslice) : St () :=
  match val with
  | [] => mret ()
  | s :: val' =>
      _ ← (if decide (s ≠ slice_all) then store_item r i s else mret ());
      assign_slices r (S i) val'
  end.

(** What [__getitem__] returns. *)
Inductive item : Type :=
  | Frame (a : ndarray)
  | Handle (h : ImageHandle)
  | PyNone.

(** [ImageHandle.__getitem__] *)
Definition getitem (h : ImageHandle) (val : key) : St item :=
  match val with
  | KInt i => a ← lift (get h i); mret (Frame a)
  | KSlice s =>
      obj ← copy h;
      _ ← store_item (slices obj) 0 s;
      mret (Handle obj)
  | KTuple ss =>
      obj ← copy h;
      l ← load (slices h);
      r ← alloc l;
      let obj := {| filename := filename obj; channel := channel obj;
                    meta := meta obj; data := data obj; slices := r |} in
      _ ← assign_slices r 0 ss;
      mret (Handle obj)
  | _ => mret PyNone
  end.

(** [ImageHandle.__len__] *)
Definition len (h : ImageHandle) : St Z :=
  sh ← slice_shape h;
  lift (match sh with
        | n :: _ => Ok n
        | [] => Err (IndexError "list index out of range")
        end).

(** The constructors registered for lazy reading. *)
Definition lazy_readers : gmap string (string → option Z → St ImageHandle) :=
  {[ "tif" := TifImageHandle ]}.

(** The functions registered for eager reading. *)
Definition eager_readers : gmap string reader :=
  <["tif" := tif_read]> (<["tiff" := tif_read]> (<["png" := imageio_imread]>
  (<["jpg" := imageio_imread]> (<["nd2" := nd2_read]> {[ "avi" := avi_read ]})))).

(** What [imread] returns. *)
Inductive image : Type :=
  | Lazy (h : ImageHandle)
  | Array (a : ndarray).

(** The part of [imread] that follows the eager read. *)
Definition select_channel (data : ndarray) (channel : option Z) : res ndarray :=
  data ← (if (nd_ndim data =? 4)%nat
          then np_transpose data [0; 2; 3; 1]%nat
          else Ok data);
  match channel with
  | Some c =>
      if (nd_ndim data =? 4)%nat then
        nd_getitem data [IxSlice slice_all; IxSlice slice_all;
                         IxSlice slice_all; IxInt c]
      else
        Err (NotImplementedError
               ("Cant select channel with " +:+ pretty (nd_ndim data)
                +:+ " dimensions"))
  | None => Ok data
  end.

(** [imread(filepath, lazy, channel)] *)
Definition imread (filepath : string) (lazy : bool) (channel : option Z)
  : St image :=
  if negb (contains_char "."%char filepath) then
    lift (Err (ValueError ("missing extension in filename: " +:+ filepath)))
  else
    let ext := extension filepath in
    if lazy then
      match lazy_readers !! ext with
      | Some read_function => h ← read_function filepath channel; mret (Lazy h)
      | None => lift (Err (TypeError "'NoneType' object is not callable"))
      end
    else
      match eager_readers !! ext with
      | None =>
          lift (Err (NotImplementedError ("Cannot read image of type " +:+ ext)))
      | Some read_function =>
          data ← lift (read_with read_function filepath);
          a ← lift (select_channel data channel);
          mret (Array a)
      end.

(** ** Statements about handles *)

(** [len(slices) == ndim], for a handle whose file still holds the series
    it was opened on. *)
Definition handle_ok (σ : heap) (h : ImageHandle) : Prop :=
  open_series (filename h) = Ok (data h) ∧
  ∃ l, σ !! slices h = Some l ∧ length l = ndim h.

(** The list a handle was indexed with positions replaced, in the words of
    the specification: position-wise, for every non-default entry. *)
Definition replace_non_default (l val : list pyslice) : list pyslice :=
  imap (fun j s0 =>
          match val !! j with
          | Some s => if decide (s = slice_all) then s0 else s
          | None => s0
          end) l.

(** Neither an integer, nor a slice, nor a tuple. *)
Definition is_other_key (val : key) : bool :=
  match val with
  | KInt _ | KSlice _ | KTuple _ => false
  | _ => true
  end.

(** ** Writing *)

(** Floats with the conversion [float_of q] for [float(q)], the dictionary [Metadata.dict]
    (its content follows the order of [exif.items()], which the map [exif]
    does not carry, so it is taken as a function of the metadata), and the
    writers: [write_with] stands for [_tif.write] and [_mp4.write],
    [tiff_open] for [tifffile.TiffWriter(filename)] and [tiff_write written p]
    for the call [tiff.write] of page [p] after the pages [written]. *)
Context {flt mdict kwargs result : Type}.
Context (float_of : Qc → res flt).
Context (meta_dict : Metadata → mdict).
Context (write_with : writer → string → image → option Metadata → kwargs → St result).
Context (tiff_open : string → res ()).
Context (tiff_write : list (page flt mdict) → page flt mdict → res ()).

(** The functions registered for writing. *)
Definition writers : gmap string writer :=
  <["tif" := tif_write]> {[ "mp4" := mp4_write ]}.

(** [imwrite(filepath, data, meta, frame_time, max_fps, **kwargs)] *)
Definition imwrite (filepath : string) (data : image) (meta : option Metadata)
    (frame_time : flt) (max_fps : Z) (kw : kwargs) : St result :=
  if negb (contains_char "."%char filepath) then
    lift (Err (ValueError ("missing extension in filename: " +:+ filepath)))
  else
    let ext := extension filepath in
    match writers !! ext with
    | None =>
        lift (Err (NotImplementedError ("Cannot write image of type " +:+ ext)))
    | Some write_function => write_with write_function filepath data meta kw
    end.

(** One step of the generator [__iter__] at index [i], the list of slices
    being [l]. *)
Definition next_frame (h : ImageHandle) (l : list pyslice) (i : Z) : res ndarray :=
  frame ← get h i;
  nd_getitem frame (IxSlice <$> tail l).

(** The indices [__iter__] runs through. *)
Definition frame_indices (h : ImageHandle) (l : list pyslice) : res (list Z) :=
  s0 ← first_slice l;
  N ← shape_item (shape h) 0;
  '(start, stop, step) ← slice_indices s0 (Z.of_nat N);
  py_range start stop step.

(** The loop of [imwrite_lazy] over the remaining indices: the next frame is
    produced, then the resolution and the dictionary are read and the page
    is written.  The outcome comes with the pages written so far. *)
Fixpoint write_frames (h : ImageHandle) (l : list pyslice) (idxs : list Z)
    (written : list (page flt mdict)) : res () * list (page flt mdict) :=
  match idxs with
  | [] => (Ok (), written)
  | i :: idxs' =>
      match (frame ← next_frame h l i;
             r ← resolution float_of (meta h);
             let p := Page frame r (meta_dict (meta h)) in
             _ ← tiff_write written p;
             Ok p) with
      | Ok p => write_frames h l idxs' (written ++ [p])
      | Err e => (Err e, written)
      end
  end.

(** [imwrite_lazy(filename, h, imagej)] : the outcome and the pages written.
    The store is only read. *)
Definition imwrite_lazy (filename : string) (h : ImageHandle) (imagej : bool)
    (σ : heap) : res () * list (page flt mdict) :=
  match tiff_open filename with
  | Err e => (Err e, [])
  | Ok _ =>
      let l := default [] (σ !! slices h) in
      match frame_indices h l with
      | Err e => (Err e, [])
      | Ok idxs => write_frames h l idxs []
      end
  end.

(** Writing pages that are at hand, one after the other. *)
Fixpoint write_pages (written ps : list (page flt mdict)) : res () * list (page flt mdict) :=
  match ps with
  | [] => (Ok (), written)
  | p :: ps' =>
      match tiff_write written p with
      | Ok _ => write_pages (written ++ [p]) ps'
      | Err e => (Err e, written)
      end
  end.

(** ** Slice arithmetic *)

Section SliceArithmetic.

Lemma ceil_div_spec a b q :
  0 < b → ceil_div a b = q ↔ (q - 1) * b < a ≤ q * b.
Proof.
  intros Hb. unfold ceil_div.
  pose proof (Z.div_mod (- a) b ltac:(lia)) as Hdm.
  pose proof (Z.mod_pos_bound (- a) b Hb) as Hm.
  split; intros H; nia.
Qed.

Lemma ceil_div_floor a b :
  0 < b → (a + (b - 1)) / b = ceil_div a b.
Proof.
  intros Hb. symmetry. apply ceil_div_spec; [done|].
  pose proof (Z.div_mod (a + (b - 1)) b ltac:(lia)) as Hdm.
  pose proof (Z.mod_pos_bound (a + (b - 1)) b Hb) as Hm.
  nia.
Qed.

(** The loop yields [count] elements when it has the fuel for them. *)
Lemma range_loop_up_length fuel i stop step :
  0 < step → stop - i ≤ Z.of_nat fuel →
  Z.of_nat (length (range_loop fuel i stop step))
  = Z.max 0 (ceil_div (stop - i) step).
Proof.
  intros Hstep. revert i.
  induction fuel as [|fuel IH]; intros i Hfuel; simpl.
  - pose proof (proj1 (ceil_div_spec (stop - i) step _ Hstep) eq_refl). nia.
  - unfold range_continues. rewrite (proj2 (Z.ltb_lt 0 step) Hstep).
    pose proof (proj1 (ceil_div_spec (stop - i) step _ Hstep) eq_refl) as Hc.
    destruct (Z.ltb_spec i stop) as [Hlt|Hge]; [|simpl; nia].
    simpl length. rewrite Nat2Z.inj_succ, IH by lia.
    pose proof (proj1 (ceil_div_spec (stop - (i + step)) step _ Hstep) eq_refl) as Hc'.
    assert (ceil_div (stop - i) step = ceil_div (stop - (i + step)) step + 1) as ->.
    { apply ceil_div_spec; [done|]. lia. }
    nia.
Qed.

Lemma range_loop_down_length fuel i stop step :
  step < 0 → i - stop ≤ Z.of_nat fuel →
  Z.of_nat (length (range_loop fuel i stop step))
  = Z.max 0 (ceil_div (i - stop) (- step)).
Proof.
  intros Hstep. assert (0 < - step) as Hpos by lia. revert i.
  induction fuel as [|fuel IH]; intros i Hfuel; simpl.
  - pose proof (proj1 (ceil_div_spec (i - stop) (- step) _ Hpos) eq_refl). nia.
  - unfold range_continues. rewrite (proj2 (Z.ltb_ge 0 step)) by lia.
    pose proof (proj1 (ceil_div_spec (i - stop) (- step) _ Hpos) eq_refl) as Hc.
    destruct (Z.ltb_spec stop i) as [Hlt|Hge]; [|simpl; nia].
    simpl length. rewrite Nat2Z.inj_succ, IH by lia.
    pose proof (proj1 (ceil_div_spec (i + step - stop) (- step) _ Hpos) eq_refl) as Hc'.
    assert (ceil_div (i - stop) (- step)
            = ceil_div (i + step - stop) (- step) + 1) as ->.
    { apply ceil_div_spec; [done|]. lia. }
    nia.
Qed.

(** The loop yields an arithmetic progression. *)
Lemma range_loop_lookup fuel : ∀ i stop step k x,
  range_loop fuel i stop step !! k = Some x → x = i + Z.of_nat k * step.
Proof.
  induction fuel as [|fuel IH]; intros i stop step k x; simpl; [done|].
  destruct (range_continues i stop step); [|done].
  destruct k as [|k]; simpl.
  - intros [= <-]. lia.
  - intros Hk. apply IH in Hk. lia.
Qed.

(** Every element the loop yields lies between its first index and the
    stop bound. *)
Lemma range_loop_bounds fuel i stop step lo hi :
  step ≠ 0 →
  (0 < step → lo ≤ i ∧ stop ≤ hi) →
  (step < 0 → i < hi ∧ lo - 1 ≤ stop) →
  Forall (fun x => lo ≤ x < hi) (range_loop fuel i stop step).
Proof.
  intros Hstep. revert i.
  induction fuel as [|fuel IH]; intros i Hup Hdown; simpl; [constructor|].
  unfold range_continues.
  destruct (Z.ltb_spec 0 step) as [Hpos|Hneg].
  - destruct (Z.ltb_spec i stop); constructor; [lia|apply IH; lia].
  - destruct (Z.ltb_spec stop i); constructor; [lia|apply IH; lia].
Qed.

(** What [slice.indices] returns on a non-negative length. *)
Lemma slice_indices_ok s n :
  0 ≤ n → default 1 (slice_step s) ≠ 0 →
  ∃ start stop,
    slice_indices s n = Ok (start, stop, default 1 (slice_step s)) ∧
    (0 < default 1 (slice_step s) → 0 ≤ start ≤ n ∧ 0 ≤ stop ≤ n) ∧
    (default 1 (slice_step s) < 0 → -1 ≤ start ≤ n - 1 ∧ -1 ≤ stop ≤ n - 1).
Proof.
  intros Hn Hstep. unfold slice_indices.
  rewrite (proj2 (Z.ltb_ge n 0)) by lia.
  rewrite (proj2 (Z.eqb_neq _ 0)) by done.
  eexists _, _. split; [reflexivity|].
  unfold clamp_bound.
  destruct (Z.ltb_spec (default 1 (slice_step s)) 0);
    destruct (slice_start s) as [a|], (slice_stop s) as [b|];
    repeat case_match; lia.
Qed.

End SliceArithmetic.

(** C1.  For a non-negative length [n], [slice_length s n] fails with
    [ValueError] when the step is zero; otherwise the slice resolves to
    [(start, stop, step)], the result is the number of indices of
    [range(start, stop, step)], which are [start], [start + step], ... and
    all valid positions [0 <= x < n], and that number is
    [max(0, ceil((stop - start) / step))] for a positive step and
    [max(0, ceil((start - stop) / (- step)))] for a negative one. *)
Theorem slice_length_counts_range (s : pyslice) (n : Z) :
  0 ≤ n →
  if decide (slice_step s = Some 0) then
    slice_length s n = Err (ValueError "slice step cannot be zero")
  else
    ∃ start stop step idxs,
      slice_indices s n = Ok (start, stop, step) ∧
      step = default 1 (slice_step s) ∧
      py_range start stop step = Ok idxs ∧
      (∀ k x, idxs !! k = Some x → x = start + Z.of_nat k * step) ∧
      Forall (fun x => 0 ≤ x < n) idxs ∧
      slice_length s n = Ok (Z.of_nat (length idxs)) ∧
      Z.of_nat (length idxs)
      = (if 0 <? step then Z.max 0 (ceil_div (stop - start) step)
         else Z.max 0 (ceil_div (start - stop) (- step))).
Proof.
  intros Hn. case_decide as Hz.
  - unfold slice_length, slice_indices. rewrite Hz. simpl.
    by rewrite (proj2 (Z.ltb_ge n 0)) by lia.
  - assert (default 1 (slice_step s) ≠ 0) as Hstep.
    { destruct (slice_step s) as [st|]; simpl; [congruence|lia]. }
    destruct (slice_indices_ok s n Hn Hstep) as (start & stop & Hidx & Hup & Hdown).
    set (step := default 1 (slice_step s)) in *.
    exists start, stop, step, (range_loop (Z.to_nat (Z.abs (stop - start))) start stop step).
    split; [done|]. split; [done|].
    split. { unfold py_range. by rewrite (proj2 (Z.eqb_neq step 0)). }
    split. { intros k x. apply range_loop_lookup. }
    split. { apply range_loop_bounds; [done|lia|lia]. }
    unfold slice_length. rewrite Hidx. simpl.
    destruct (Z.ltb_spec 0 step) as [Hpos|Hnpos].
    + rewrite range_loop_up_length by lia.
      by rewrite ceil_div_floor.
    + rewrite (proj2 (Z.ltb_lt step 0)) by lia.
      rewrite range_loop_down_length by lia.
      replace (start - stop - (step + 1)) with (start - stop + (- step - 1)) by lia.
      by rewrite ceil_div_floor by lia.
Qed.

(** ** The store and the constructor *)

Ltac st_unfold :=
  unfold mbind, St_bind, mret, St_ret, lift, alloc, load in *; simpl in *.

Lemma TifImageHandle_inv fname ch σ r σ' :
  TifImageHandle fname ch σ = (r, σ') →
  match r with
  | Ok h =>
      σ' = σ ++ [replicate (ndim h) slice_all] ∧
      slices h = length σ ∧ filename h = fname ∧
      channel h = channel_or_1 ch ∧ open_series fname = Ok (data h)
  | Err _ => σ' = σ
  end.
Proof.
  unfold TifImageHandle, Metadata_init, get_data. st_unfold.
  destruct (read_exif fname) as [e|?]; simpl; [|by intros [= <- <-]].
  destruct (open_series fname) as [d|?]; simpl; [|by intros [= <- <-]].
  intros [= <- <-]. by simpl.
Qed.

Lemma store_item_inv r i s σ res σ' :
  store_item r i s σ = (res, σ') →
  match res with
  | Ok _ => ∃ l, σ !! r = Some l ∧ (i < length l)%nat ∧ σ' = <[r := <[i := s]> l]> σ
  | Err _ => σ' = σ
  end.
Proof.
  unfold store_item.
  destruct (σ !! r) as [l|] eqn:Hl; simpl.
  - destruct (Nat.ltb_spec i (length l)); intros [= <- <-]; [|done].
    by exists l.
  - intros [= <- <-]. done.
Qed.

(** An assignment by index leaves every other list object as it was. *)
Lemma store_item_frame r i s σ res σ' :
  store_item r i s σ = (res, σ') →
  length σ' = length σ ∧ ∀ r0, r0 ≠ r → σ' !! r0 = σ !! r0.
Proof.
  intros H. apply store_item_inv in H. destruct res.
  - destruct H as (l & _ & _ & ->). split; [by rewrite length_insert|].
    intros r0 Hne. by rewrite list_lookup_insert_ne.
  - by subst.
Qed.

Lemma assign_slices_frame r val : ∀ i σ res σ',
  assign_slices r i val σ = (res, σ') →
  length σ' = length σ ∧ ∀ r0, r0 ≠ r → σ' !! r0 = σ !! r0.
Proof.
  induction val as [|s val IH]; intros i σ res σ'; simpl.
  - st_unfold. by intros [= <- <-].
  - unfold mbind, St_bind. case_decide as Hs.
    + destruct (store_item r i s σ) as [[[]|e] σ1] eqn:Hst.
      * apply store_item_frame in Hst as [Hlen Hfr].
        intros H. apply IH in H as [Hlen' Hfr'].
        split; [congruence|]. intros r0 Hne. rewrite Hfr', Hfr; done.
      * apply store_item_frame in Hst as [Hlen Hfr].
        by intros [= <- <-].
    + apply IH.
Qed.

(** The loop of the tuple case: when it finishes, every non-default entry
    of the tuple was inside the list and has replaced the slice at its
    position; every other position keeps its slice. *)
Lemma assign_slices_ok r val : ∀ i σ σ' l,
  assign_slices r i val σ = (Ok (), σ') →
  σ !! r = Some l →
  ∃ l', σ' !! r = Some l' ∧ length l' = length l ∧
    (∀ j, (j < i)%nat → l' !! j = l !! j) ∧
    (∀ j s0, (i ≤ j)%nat → l !! j = Some s0 →
       l' !! j = Some (match val !! (j - i)%nat with
                       | Some s => if decide (s = slice_all) then s0 else s
                       | None => s0
                       end)).
Proof.
  induction val as [|s val IH]; intros i σ σ' l; simpl.
  - st_unfold. intros [= <-] Hl. exists l. by repeat split.
  - unfold mbind, St_bind. case_decide as Hs.
    + destruct (store_item r i s σ) as [[[]|e] σ1] eqn:Hst; [|done].
      apply store_item_inv in Hst as (l0 & Hl0 & Hi & ->).
      intros Hrest Hl. rewrite Hl in Hl0. injection Hl0 as <-.
      assert (r < length σ)%nat as Hr by (by eapply lookup_lt_Some).
      eapply IH in Hrest as (l' & Hl' & Hlen & Hlow & Hhigh);
        [|by apply list_lookup_insert_eq].
      exists l'. rewrite length_insert in Hlen.
      split; [done|]. split; [done|]. split.
      * intros j Hj. rewrite Hlow by lia.
        apply list_lookup_insert_ne. lia.
      * intros j s0 Hij Hj.
        destruct (decide (j = i)) as [->|Hne].
        -- rewrite Nat.sub_diag. simpl. rewrite decide_False by done.
           rewrite Hlow by lia. by apply list_lookup_insert_eq.
        -- rewrite (Hhigh j s0);
             [|lia|by rewrite list_lookup_insert_ne by lia].
           replace (j - i)%nat with (S (j - S i)) by lia. done.
    + st_unfold. intros Hrest Hl.
      eapply IH in Hrest as (l' & Hl' & Hlen & Hlow & Hhigh); [|done].
      exists l'. split; [done|]. split; [done|]. split.
      * intros j Hj. apply Hlow. lia.
      * intros j s0 Hij Hj.
        destruct (decide (j = i)) as [->|Hne].
        -- rewrite Nat.sub_diag. simpl.
           destruct (decide (s = slice_all)); [|by destruct Hs].
           rewrite Hlow by lia. done.
        -- rewrite (Hhigh j s0); [|lia|done].
           replace (j - i)%nat with (S (j - S i)) by lia. done.
Qed.

(** The loop finishes when every non-default entry falls inside the list. *)
Lemma assign_slices_total r val : ∀ i σ l,
  σ !! r = Some l →
  (∀ k s, val !! k = Some s → s ≠ slice_all → (i + k < length l)%nat) →
  ∃ σ', assign_slices r i val σ = (Ok (), σ').
Proof.
  induction val as [|s val IH]; intros i σ l Hl Hin; simpl.
  - by eexists.
  - unfold mbind, St_bind. case_decide as Hs.
    + unfold store_item at 1. rewrite Hl. simpl.
      pose proof (Hin O s eq_refl Hs) as Hi.
      rewrite (proj2 (Nat.ltb_lt i (length l))) by lia.
      eapply (IH (S i) _ (<[i:=s]> l)).
      * apply list_lookup_insert_eq. by eapply lookup_lt_Some.
      * intros k s' Hk Hs'. rewrite length_insert.
        pose proof (Hin (S k) s' Hk Hs'). lia.
    + st_unfold. eapply (IH (S i) _ l); [done|].
      intros k s' Hk Hs'. pose proof (Hin (S k) s' Hk Hs'). lia.
Qed.

(** ** Indexing a handle *)

Lemma copy_inv h σ r σ' :
  copy h σ = (r, σ') →
  match r with
  | Ok obj =>
      σ' = σ ++ [replicate (ndim obj) slice_all] ∧
      slices obj = length σ ∧ filename obj = filename h ∧
      open_series (filename h) = Ok (data obj)
  | Err _ => σ' = σ
  end.
Proof.
  intros H. apply TifImageHandle_inv in H.
  destruct r as [obj|]; [|done].
  by destruct H as (Hσ & Hs & Hf & _ & Ho).
Qed.

(** Indexing only creates list objects: the lists that exist before keep
    their contents, whatever the outcome. *)
Lemma getitem_frame h val σ r σ' :
  getitem h val σ = (r, σ') →
  ∀ r0 l, σ !! r0 = Some l → σ' !! r0 = Some l.
Proof.
  intros H r0 l Hr0.
  assert (r0 < length σ)%nat as Hlt by (by eapply lookup_lt_Some).
  destruct val as [i|s|ss|?|?|]; simpl in H;
    try (by injection H as <- <-).
  - unfold mbind, St_bind, lift in H.
    destruct (get h i); by injection H as <- <-.
  - unfold mbind, St_bind in H.
    destruct (copy h σ) as [[obj|e] σ1] eqn:Hc;
      apply copy_inv in Hc; [|by injection H as <- <-; subst].
    destruct Hc as (-> & Hobj & _).
    destruct (store_item _ _ _ _) as [[[]|e] σ2] eqn:Hst;
      apply store_item_frame in Hst as [_ Hfr];
      injection H as <- <-;
      rewrite Hfr by lia; by rewrite lookup_app_l.
  - unfold mbind, St_bind in H.
    destruct (copy h σ) as [[obj|e] σ1] eqn:Hc;
      apply copy_inv in Hc; [|by injection H as <- <-; subst].
    destruct Hc as (-> & Hobj & _).
    unfold load, alloc in H.
    destruct (assign_slices _ _ _ _) as [[[]|e] σ2] eqn:Has;
      apply assign_slices_frame in Has as [_ Hfr];
      injection H as <- <-;
      (rewrite Hfr by (rewrite length_app; simpl; lia));
      rewrite !lookup_app_l; (done || rewrite ?length_app; simpl; lia).
Qed.

(** C10.  Indexing a handle with a value that is neither an integer, a
    slice nor a tuple (a list, a string, [None]) raises nothing, changes
    nothing and returns [None]. *)
Theorem getitem_other_returns_None (h : ImageHandle) (val : key) (σ : heap) :
  is_other_key val = true →
  getitem h val σ = (Ok PyNone, σ).
Proof. by destruct val. Qed.

(** The tuple case of [__getitem__], step by step. *)
Lemma getitem_tuple_inv h ss σ h' σ' l :
  σ !! slices h = Some l →
  getitem h (KTuple ss) σ = (Ok (Handle h'), σ') →
  ∃ obj σ2,
    copy h σ = (Ok obj, σ ++ [replicate (ndim obj) slice_all]) ∧
    σ2 = (σ ++ [replicate (ndim obj) slice_all]) ++ [l] ∧
    slices h' = S (length σ) ∧ data h' = data obj ∧
    filename h' = filename obj ∧
    assign_slices (S (length σ)) 0 ss σ2 = (Ok (), σ') ∧
    σ2 !! S (length σ) = Some l.
Proof.
  intros Hl H. simpl in H. unfold mbind, St_bind in H.
  assert (slices h < length σ)%nat as Hlt by (by eapply lookup_lt_Some).
  destruct (copy h σ) as [[obj|e] σ1] eqn:Hc; [|done].
  pose proof (copy_inv _ _ _ _ Hc) as (-> & Hobj & _).
  unfold load, alloc in H. rewrite lookup_app_l, Hl in H by done. simpl in H.
  rewrite length_app in H. simpl in H. rewrite Nat.add_1_r in H.
  destruct (assign_slices _ _ _ _) as [[[]|e] σ2] eqn:Has; [|done].
  injection H as <- <-.
  exists obj, ((σ ++ [replicate (ndim obj) slice_all]) ++ [l]).
  repeat split; try done.
  rewrite lookup_app_r; rewrite length_app; simpl; [|lia].
  by replace (S (length σ) - (length σ + 1))%nat with O by lia.
Qed.

(** The list of the handle that the tuple case returns. *)
Lemma getitem_tuple_slices
    (h : ImageHandle) (ss : list pyslice) (σ : heap)
    (h' : ImageHandle) (σ' : heap) (l : list pyslice) :
  σ !! slices h = Some l →
  getitem h (KTuple ss) σ = (Ok (Handle h'), σ') →
  ∃ l',
    σ' !! slices h' = Some l' ∧
    length l' = length l ∧
    (∀ j s0, l !! j = Some s0 →
       l' !! j = Some (match ss !! j with
                       | Some s => if decide (s = slice_all) then s0 else s
                       | None => s0
                       end)) ∧
    l' = replace_non_default l ss ∧
    σ' !! slices h = Some l.
Proof.
  intros Hl H.
  pose proof (getitem_frame _ _ _ _ _ H _ _ Hl) as Hkeep.
  destruct (getitem_tuple_inv _ _ _ _ _ _ Hl H)
    as (obj & σ2 & _ & -> & Hs & _ & _ & Has & Hr).
  destruct (assign_slices_ok _ _ _ _ _ _ Has Hr) as (l' & Hl' & Hlen & _ & Hhigh).
  assert (∀ j s0, l !! j = Some s0 →
            l' !! j = Some (match ss !! j with
                            | Some s => if decide (s = slice_all) then s0 else s
                            | None => s0
                            end)) as Hpt.
  { intros j s0 Hj. rewrite (Hhigh j s0) by (done || lia).
    by rewrite Nat.sub_0_r. }
  exists l'. rewrite Hs. repeat split; try done.
  apply list_eq. intros j. unfold replace_non_default.
  rewrite list_lookup_imap.
  destruct (l !! j) as [s0|] eqn:Hj; simpl.
  - by apply Hpt.
  - apply lookup_ge_None. apply lookup_ge_None in Hj. lia.
Qed.

(** Indexing with a tuple returns a handle as soon as the file can be
    opened again and the non-default entries fall inside the list. *)
Lemma getitem_tuple_total h ss σ l :
  σ !! slices h = Some l →
  is_ok (fst (copy h σ)) = true →
  (∀ k s, ss !! k = Some s → s ≠ slice_all → (k < length l)%nat) →
  ∃ h' σ', getitem h (KTuple ss) σ = (Ok (Handle h'), σ').
Proof.
  intros Hl Hc Hin. simpl. unfold mbind, St_bind.
  assert (slices h < length σ)%nat as Hlt by (by eapply lookup_lt_Some).
  destruct (copy h σ) as [[obj|e] σ1] eqn:Hcp; [|done].
  pose proof (copy_inv _ _ _ _ Hcp) as (-> & Hobj & _).
  unfold load, alloc. rewrite lookup_app_l, Hl by done. simpl.
  edestruct (assign_slices_total
               (length (σ ++ [replicate (ndim obj) slice_all])) ss O
               ((σ ++ [replicate (ndim obj) slice_all]) ++ [l]) l) as [σ' Hσ'].
  - rewrite lookup_app_r by lia. by rewrite Nat.sub_diag.
  - intros k s Hk Hs. simpl. eauto.
  - rewrite Hσ'. by eexists _, _.
Qed.

(** C3.  Indexing with a tuple of slices returns a handle as soon as the
    file can be opened again and the non-default entries of the tuple fall
    inside the list of slices; and when it returns a handle, its slices are
    those of the indexed handle with exactly the positions of the
    non-default entries of the tuple replaced by these entries: a position
    whose entry is the full-range default, or that the tuple does not
    reach, keeps the slice of the indexed handle, narrowed or not.  The
    indexed handle keeps its own list. *)
Theorem getitem_tuple_replaces_non_default
    (h : ImageHandle) (ss : list pyslice) (σ : heap) (l : list pyslice) :
  σ !! slices h = Some l →
  (is_ok (fst (copy h σ)) = true →
   (∀ k s, ss !! k = Some s → s ≠ slice_all → (k < length l)%nat) →
   ∃ h' σ', getitem h (KTuple ss) σ = (Ok (Handle h'), σ')) ∧
  (∀ h' σ',
     getitem h (KTuple ss) σ = (Ok (Handle h'), σ') →
     ∃ l',
       σ' !! slices h' = Some l' ∧
       length l' = length l ∧
       (∀ j s0, l !! j = Some s0 →
          l' !! j = Some (match ss !! j with
                          | Some s => if decide (s = slice_all) then s0 else s
                          | None => s0
                          end)) ∧
       l' = replace_non_default l ss ∧
       σ' !! slices h = Some l).
Proof.
  intros Hl. split.
  - by apply getitem_tuple_total.
  - intros h' σ'. by apply getitem_tuple_slices.
Qed.

(** The slice case of [__getitem__]: the handle it returns has the default
    slices but for position 0. *)
Lemma getitem_slice_inv h s σ a σ1 :
  getitem h (KSlice s) σ = (Ok (Handle a), σ1) →
  σ1 !! slices a = Some (<[0%nat := s]> (replicate (ndim a) slice_all)) ∧
  filename a = filename h ∧
  open_series (filename h) = Ok (data a).
Proof.
  intros H. simpl in H. unfold mbind, St_bind in H.
  destruct (copy h σ) as [[obj|e] σ0] eqn:Hc; [|done].
  apply copy_inv in Hc as (-> & Hobj & Hf & Ho).
  destruct (store_item _ _ _ _) as [[[]|e] σ2] eqn:Hst; [|done].
  injection H as <- <-.
  apply store_item_inv in Hst as (l & Hl & _ & ->).
  rewrite Hobj, lookup_app_r, Nat.sub_diag in Hl by lia.
  injection Hl as <-. split; [|done].
  rewrite Hobj. apply list_lookup_insert_eq. rewrite length_app. simpl. lia.
Qed.

(** Frames and slice shapes depend on a handle through its series and the
    contents of its list of slices only. *)
Lemma get_same_data h1 h2 i : data h1 = data h2 → get h1 i = get h2 i.
Proof.
  intros Hd. unfold get, decode_frame, shape, ndim. by rewrite Hd.
Qed.

Lemma res_mapM_ext {A B} (f g : A → res B) (l : list A) :
  (∀ a, f a = g a) → res_mapM f l = res_mapM g l.
Proof.
  intros Hfg. induction l as [|a l IH]; [done|]. simpl. by rewrite Hfg, IH.
Qed.

Lemma views_same_slices h1 h2 σ :
  data h1 = data h2 → σ !! slices h1 = σ !! slices h2 →
  slice_shape h1 σ = slice_shape h2 σ ∧ iter_frames h1 σ = iter_frames h2 σ.
Proof.
  intros Hd Hs.
  assert (shape h1 = shape h2) as Hsh by (unfold shape, ndim; by rewrite Hd).
  unfold slice_shape, iter_frames, mbind, St_bind, load.
  rewrite Hs, Hsh. split; [done|].
  destruct (lift (first_slice _) σ) as [[s0|] ?]; [|done].
  destruct (lift (shape_item _ _) _) as [[N|] ?]; [|done].
  destruct (lift (slice_indices _ _) _) as [[[[start stop] step]|] ?]; [|done].
  destruct (lift (py_range _ _ _) _) as [[idxs|] ?]; [|done].
  unfold lift. erewrite res_mapM_ext; [done|].
  intros i. simpl. by rewrite (get_same_data h1 h2 i Hd).
Qed.

(** On a handle whose dimensions from 2 on still have the default slice (a
    handle as opened, in particular), slicing in two steps and slicing at
    once give handles with the same slices, hence the same slice shape and
    the same frames, and the list of the handle itself is left alone. *)
Lemma composed_slicing_agrees_on_default
    h σ l s0 s1 a σ1 composed σ2 direct σ3 :
  handle_ok σ h →
  σ !! slices h = Some l →
  (∀ j s, (2 ≤ j)%nat → l !! j = Some s → s = slice_all) →
  s0 ≠ slice_all → s1 ≠ slice_all →
  getitem h (KSlice s0) σ = (Ok (Handle a), σ1) →
  getitem a (KTuple [slice_all; s1]) σ1 = (Ok (Handle composed), σ2) →
  getitem h (KTuple [s0; s1]) σ2 = (Ok (Handle direct), σ3) →
  σ3 !! slices h = Some l ∧
  σ3 !! slices composed = σ3 !! slices direct ∧
  slice_shape composed σ3 = slice_shape direct σ3 ∧
  iter_frames composed σ3 = iter_frames direct σ3.
Proof.
  intros [Hopen (l0 & Hl0 & Hlen)] Hl Hdef Hs0 Hs1 H1 H2 H3.
  rewrite Hl in Hl0. injection Hl0 as <-.
  pose proof (getitem_frame _ _ _ _ _ H1 _ _ Hl) as Hl1.
  pose proof (getitem_frame _ _ _ _ _ H2 _ _ Hl1) as Hl2.
  destruct (getitem_slice_inv _ _ _ _ _ H1) as (Ha & Hfa & Hoa).
  rewrite Hopen in Hoa. injection Hoa as Hda.
  destruct (getitem_tuple_slices _ _ _ _ _ _ Ha H2) as (lc & Hc & Hlenc & Hptc & _).
  destruct (getitem_tuple_inv _ _ _ _ _ _ Ha H2)
    as (obj & ? & Hcopy & _ & _ & Hdc & _ & _).
  apply copy_inv in Hcopy as (_ & _ & _ & Hoc). rewrite Hfa, Hopen in Hoc.
  injection Hoc as Hdobj.
  destruct (getitem_tuple_slices _ _ _ _ _ _ Hl2 H3) as (ld & Hd & Hlend & Hptd & _ & Hl3).
  destruct (getitem_tuple_inv _ _ _ _ _ _ Hl2 H3)
    as (obj' & ? & Hcopy' & _ & _ & Hdd & _ & _).
  apply copy_inv in Hcopy' as (_ & _ & _ & Hod). rewrite Hopen in Hod.
  injection Hod as Hdobj'.
  pose proof (getitem_frame _ _ _ _ _ H3 _ _ Hc) as Hc3.
  assert (lc = ld) as ->.
  { apply list_eq. intros j.
    rewrite length_insert, length_replicate in Hlenc.
    assert (ndim a = ndim h) as Hnd by (unfold ndim; by rewrite <- Hda).
    destruct (decide (j < length l)%nat) as [Hj|Hj].
    - destruct (lookup_lt_is_Some_2 l j Hj) as [sl Hsl].
      rewrite (Hptd j sl Hsl).
      assert (j < ndim a)%nat as Hj' by lia.
      destruct j as [|[|j]].
      + erewrite Hptc; [|by apply list_lookup_insert_eq; rewrite length_replicate].
        change ([slice_all; s1] !! 0%nat) with (Some slice_all).
        change ([s0; s1] !! 0%nat) with (Some s0). cbv beta iota.
        by rewrite decide_True, decide_False.
      + erewrite Hptc;
          [|by rewrite list_lookup_insert_ne, lookup_replicate_2 by lia].
        change ([slice_all; s1] !! 1%nat) with (Some s1).
        change ([s0; s1] !! 1%nat) with (Some s1). cbv beta iota.
        destruct (decide (s1 = slice_all)) as [Heq|_]; [by destruct Hs1|done].
      + erewrite Hptc;
          [|by rewrite list_lookup_insert_ne, lookup_replicate_2 by lia].
        change ([slice_all; s1] !! S (S j)) with (@None pyslice).
        change ([s0; s1] !! S (S j)) with (@None pyslice). cbv beta iota.
        f_equal. symmetry. eapply Hdef; [|done]. lia.
    - rewrite !lookup_ge_None_2; [done|lia|].
      rewrite Hlenc. unfold ndim in *. rewrite <- Hda in *. lia. }
  split; [done|]. rewrite Hc3, Hd. split; [done|].
  apply views_same_slices; [|by rewrite Hc3, Hd].
  by rewrite Hdc, Hdd, <- Hdobj, <- Hdobj'.
Qed.

(** C8.  [len(slices) == ndim] holds for a handle as constructed, for a
    copy, and for the handle that indexing with a slice or with a tuple of
    slices returns; indexing (with an integer as with anything else) and
    copying leave it true of the handle they are applied to. *)
Theorem len_slices_eq_ndim :
  (∀ fname ch σ h σ',
     TifImageHandle fname ch σ = (Ok h, σ') → handle_ok σ' h) ∧
  (∀ h σ, handle_ok σ h →
     (∀ h' σ', copy h σ = (Ok h', σ') → handle_ok σ' h' ∧ handle_ok σ' h) ∧
     (∀ val r σ', getitem h val σ = (r, σ') →
        handle_ok σ' h ∧ ∀ h', r = Ok (Handle h') → handle_ok σ' h')).
Proof.
  assert (∀ fname ch σ h σ',
            TifImageHandle fname ch σ = (Ok h, σ') → handle_ok σ' h) as Hnew.
  { intros fname ch σ h σ' H. apply TifImageHandle_inv in H.
    destruct H as (-> & Hs & Hf & _ & Ho). split; [by rewrite Hf|].
    eexists. rewrite Hs, lookup_app_r, Nat.sub_diag by lia.
    split; [done|]. by rewrite length_replicate. }
  split; [done|]. intros h σ [Hopen (l & Hl & Hlen)].
  assert (slices h < length σ)%nat as Hlt by (by eapply lookup_lt_Some).
  split.
  - intros h' σ' Hc. split; [by eapply Hnew|].
    apply copy_inv in Hc as (-> & _). split; [done|].
    exists l. by rewrite lookup_app_l.
  - intros val r σ' H. split.
    { split; [done|]. exists l. split; [|done]. by eapply getitem_frame. }
    intros h' ->. destruct val as [i|s|ss|?|?|]; try done.
    + simpl in H. unfold mbind, St_bind, lift in H. by destruct (get h i).
    + simpl in H. unfold mbind, St_bind in H.
      destruct (copy h σ) as [[obj|e] σ1] eqn:Hc; [|done].
      pose proof (Hnew _ _ _ _ _ Hc) as [Hopen' (l1 & Hl1 & Hlen1)].
      destruct (store_item _ _ _ _) as [[[]|e] σ2] eqn:Hst; [|done].
      injection H as <- <-.
      apply store_item_inv in Hst as (l2 & Hl2 & _ & ->).
      split; [done|]. rewrite Hl1 in Hl2. injection Hl2 as <-.
      eexists. rewrite list_lookup_insert_eq by (by eapply lookup_lt_Some).
      split; [done|]. by rewrite length_insert.
    + pose proof (getitem_tuple_slices _ _ _ _ _ _ Hl H)
        as (l' & Hl' & Hlen' & _).
      destruct (getitem_tuple_inv _ _ _ _ _ _ Hl H)
        as (obj & σ2 & Hc & _ & _ & Hd & Hf & _).
      apply copy_inv in Hc as (_ & _ & Hf' & Ho).
      split; [by rewrite Hf, Hf', Hd|].
      exists l'. split; [done|]. rewrite Hlen', Hlen. unfold ndim.
      rewrite Hd. rewrite Hopen in Ho. by injection Ho as ->.
Qed.


(** ** Frames *)

Lemma res_mapM_ok {A B} (f : A → res B) (l : list A) (bs : list B) :
  res_mapM f l = Ok bs → Forall2 (fun a b => f a = Ok b) l bs.
Proof.
  revert bs. induction l as [|a l IH]; intros bs; simpl.
  - intros [= <-]. constructor.
  - unfold mbind, res_bind. destruct (f a) as [b|] eqn:Hb; [|done].
    destruct (res_mapM f l) as [bs'|]; [|done].
    intros [= <-]. constructor; [done|by apply IH].
Qed.

Lemma res_mapM_complete {A B} (f : A → res B) (l : list A) (bs : list B) :
  Forall2 (fun a b => f a = Ok b) l bs → res_mapM f l = Ok bs.
Proof.
  induction 1 as [|a b l bs Hab _ IH]; simpl; [done|].
  by rewrite Hab, IH.
Qed.


(** What [np.stack(arrays, axis=-1)] returns: entry [c] of the trailing
    axis is array [c]. *)
Lemma np_stack_last_ok (arrays : list ndarray) (frame : ndarray) :
  np_stack_last arrays = Ok frame →
  ∃ a0, head arrays = Some a0 ∧
    nd_shape frame = nd_shape a0 ++ [length arrays] ∧
    ∀ c a, arrays !! c = Some a →
      nd_shape a = nd_shape a0 ∧
      ∀ idx, nd_item frame (idx ++ [c]) = nd_item a idx.
Proof.
  unfold np_stack_last. destruct arrays as [|a0 rest]; [done|].
  destruct (forallb _ rest) eqn:Hall; [|done].
  intros [= <-]. exists a0. split; [done|]. split; [done|].
  intros c a Hc. split.
  - destruct c as [|c]; simpl in Hc; [by injection Hc as ->|].
    rewrite forallb_forall in Hall.
    apply list_elem_of_lookup_2, list_elem_of_In, Hall in Hc.
    by apply bool_decide_eq_true in Hc.
  - intros idx. cbn [nd_item]. by rewrite last_snoc, removelast_last, Hc.
Qed.



(** Inside the bound the check passes and the frame is decoded. *)
Lemma get_in_bound h i N :
  shape h !! 0%nat = Some N →
  - Z.of_nat N < i ≤ Z.of_nat N →
  get h i = decode_frame h i.
Proof.
  intros HN Hi. unfold get, shape_item. rewrite HN. simpl.
  destruct (Z.ltb_spec (- Z.of_nat N) i), (Z.leb_spec i (Z.of_nat N));
    simpl; (done || lia).
Qed.

(** The channel count of a 4-dimensional file is axis 1 of its series. *)
Lemma shape_4d h :
  ndim h = 4%nat →
  ∃ s0 s1 s2 s3, series_shape (data h) = [s0; s1; s2; s3] ∧
    shape h = [s0; s3; s2; s1].
Proof.
  unfold shape, ndim. intros H4. rewrite H4. simpl.
  destruct (series_shape (data h)) as [|s0 [|s1 [|s2 [|s3 [|]]]]]; try done.
  by exists s0, s1, s2, s3.
Qed.



(** C5.  For an index that passes the bound check: on a 4-dimensional file
    [get(i)] takes [num_channels = shape[3]], decodes the planes
    [i * num_channels, ..., i * num_channels + num_channels - 1] and stacks
    them along a new last axis: when these planes decode, the result is
    their stack, and entry [c] of the last axis of a returned frame is plane
    [i * num_channels + c]; on any other file it decodes plane [i]. *)
Theorem get_stacks_channel_planes (h : ImageHandle) (i : Z) (N : nat) :
  shape h !! 0%nat = Some N →
  - Z.of_nat N < i ≤ Z.of_nat N →
  (ndim h = 4%nat →
     ∃ nc, shape h !! 3%nat = Some nc ∧
       get h i = (stack ← res_mapM (asarray (data h))
                             ((fun di => i * Z.of_nat nc + Z.of_nat di) <$> seq 0 nc);
                  np_stack_last stack) ∧
       (∀ planes,
          length planes = nc →
          (∀ c plane, planes !! c = Some plane →
             asarray (data h) (i * Z.of_nat nc + Z.of_nat c) = Ok plane) →
          get h i = np_stack_last planes) ∧
       ∀ frame, get h i = Ok frame →
         ∃ planes,
           length planes = nc ∧
           np_stack_last planes = Ok frame ∧
           (∀ c plane, planes !! c = Some plane →
              asarray (data h) (i * Z.of_nat nc + Z.of_nat c) = Ok plane ∧
              nd_shape frame = nd_shape plane ++ [nc] ∧
              ∀ idx, nd_item frame (idx ++ [c]) = nd_item plane idx)) ∧
  (ndim h ≠ 4%nat → get h i = asarray (data h) i).
Proof.
  intros HN Hi. rewrite (get_in_bound h i N) by done. unfold decode_frame.
  split.
  - intros H4. destruct (shape_4d h H4) as (s0 & s1 & s2 & s3 & _ & Hsh).
    rewrite H4, Hsh. simpl. exists s1. split; [done|]. split; [done|].
    unfold channel_keys. split.
    + intros planes Hlen Hplanes.
      rewrite (res_mapM_complete _ _ planes); [done|].
      apply Forall2_same_length_lookup_2.
      { by rewrite length_fmap, length_seq. }
      intros c k plane Hk Hc. rewrite list_lookup_fmap in Hk.
      destruct (seq 0 s1 !! c) as [c'|] eqn:Hseq; [|done].
      apply lookup_seq in Hseq as [-> _]. injection Hk as <-.
      by apply Hplanes.
    + intros frame. unfold mbind, res_bind.
      destruct (res_mapM _ _) as [planes|e] eqn:Hst; [|done].
      intros Hframe. exists planes.
      apply res_mapM_ok in Hst.
      pose proof (Forall2_length _ _ _ Hst) as Hlen.
      rewrite length_fmap, length_seq in Hlen.
      split; [done|]. split; [done|].
      intros c plane Hc.
      destruct (np_stack_last_ok _ _ Hframe) as (a0 & _ & Hshape & Hitems).
      destruct (Hitems c plane Hc) as [Hsame Hitem].
      split; [|split; [by rewrite Hshape, Hsame, <- Hlen|done]].
      assert (c < s1)%nat as Hc' by (rewrite Hlen; by eapply lookup_lt_Some).
      eapply (Forall2_lookup_lr _ _ _ c) in Hst; [done| |done].
      rewrite list_lookup_fmap, lookup_seq_lt by done. done.
  - intros H4. by rewrite (proj2 (Nat.eqb_neq _ _) H4).
Qed.

(** ** Reading *)

Lemma range_loop_seq fuel : ∀ i,
  range_loop fuel (Z.of_nat i) (Z.of_nat (i + fuel)) 1 = Z.of_nat <$> seq i fuel.
Proof.
  induction fuel as [|fuel IH]; intros i; [done|].
  cbn [range_loop seq]. rewrite fmap_cons, <- (IH (S i)).
  unfold range_continues.
  change (0 <? 1) with true. cbn iota.
  rewrite (proj2 (Z.ltb_lt _ _)) by lia.
  f_equal. f_equal; lia.
Qed.

Lemma range_loop_full n :
  range_loop (Z.to_nat (Z.abs (Z.of_nat n - 0))) 0 (Z.of_nat n) 1
  = Z.of_nat <$> seq 0 n.
Proof. rewrite <- (range_loop_seq n O). f_equal; lia. Qed.

(** [range(0, n, 1)] is [0, ..., n - 1]. *)
Lemma py_range_full n :
  py_range 0 (Z.of_nat n) 1 = Ok (Z.of_nat <$> seq 0 n).
Proof. unfold py_range. simpl. f_equal. apply range_loop_full. Qed.

Lemma seq_pick n k :
  (k < n)%nat → Z.to_nat ((Z.of_nat <$> seq 0 n) !!! k) = k.
Proof.
  intros Hk. erewrite list_lookup_total_correct.
  - apply Nat2Z.id.
  - by rewrite list_lookup_fmap, lookup_seq_lt.
Qed.

(** A full slice [:] in an index tuple keeps its axis whole. *)
Lemma index_plan_full axis ix n sh :
  index_plan axis (IxSlice slice_all :: ix) (n :: sh)
  = '(sh', f) ← index_plan (S axis) ix sh;
    Ok (n :: sh',
        fun idx => Z.to_nat ((Z.of_nat <$> seq 0 n) !!! hd O idx) :: f (tail idx)).
Proof.
  simpl. unfold slice_indices. simpl.
  rewrite (proj2 (Z.ltb_ge _ _)) by lia. simpl.
  rewrite range_loop_full, length_fmap, length_seq.
  unfold mbind, res_bind. by destruct (index_plan _ _ _) as [[sh' f]|].
Qed.

(** Slices need no conversion. *)
Lemma prepare_index_slices (ss : list pyslice) :
  prepare_index (IxSlice <$> ss) = Ok ().
Proof. induction ss as [|s ss IH]; [done|]. by rewrite fmap_cons. Qed.

(** An integer between the bounds of a C index is converted to itself. *)
Lemma index_as_intp_fits (i : Z) :
  - 2 ^ 63 ≤ i < 2 ^ 63 → index_as_intp i = Ok i.
Proof.
  intros Hi. unfold index_as_intp.
  destruct (Z.leb_spec (- 2 ^ 63) i), (Z.ltb_spec i (2 ^ 63)); simpl; (done || lia).
Qed.

(** The channel axis of a 4-dimensional array, as [imread] selects it: the
    selector is converted first, then checked against the channel axis. *)
Lemma getitem_channel (a : ndarray) (F H W C : nat) (c : Z) :
  nd_shape a = [F; H; W; C] →
  let ix := [IxSlice slice_all; IxSlice slice_all; IxSlice slice_all; IxInt c] in
  match index_as_intp c with
  | Err e => nd_getitem a ix = Err e
  | Ok _ =>
      if (c <? - Z.of_nat C) || (Z.of_nat C <=? c) then
        ∃ msg, nd_getitem a ix = Err (IndexError msg)
      else
        ∃ r, nd_getitem a ix = Ok r ∧ nd_shape r = [F; H; W] ∧
          ∀ f y x, (f < F)%nat → (y < H)%nat → (x < W)%nat →
            nd_item r [f; y; x]
            = nd_item a [f; y; x; Z.to_nat (if c <? 0 then c + Z.of_nat C else c)]
  end.
Proof.
  intros Hsh ix. unfold nd_getitem, nd_ndim, ix. rewrite Hsh. simpl length.
  cbn [prepare_index]. destruct (index_as_intp c) as [c'|e]; [|done].
  unfold mbind at 1, res_bind at 1.
  change (4 <? 4)%nat with false. cbn iota.
  rewrite !index_plan_full. cbn [index_plan].
  destruct ((c <? - Z.of_nat C) || (Z.of_nat C <=? c)) eqn:Hc.
  - by eexists.
  - eexists. split; [done|]. split; [done|].
    intros f y x Hf Hy Hx. cbn [nd_item hd tail].
    by rewrite !seq_pick.
Qed.

(** [np.transpose(a, (0, 2, 3, 1))] on a 4-dimensional array. *)
Lemma np_transpose_channels_last (a : ndarray) (F C H W : nat) :
  nd_shape a = [F; C; H; W] →
  ∃ post, np_transpose a [0; 2; 3; 1]%nat = Ok post ∧
    nd_shape post = [F; H; W; C] ∧
    ∀ f y x c, nd_item post [f; y; x; c] = nd_item a [f; c; y; x].
Proof.
  intros Hsh. unfold np_transpose, nd_ndim. rewrite Hsh. simpl length.
  assert (bool_decide ([0; 2; 3; 1]%nat ≡ₚ seq 0 4) = true) as ->
    by (by vm_compute).
  eexists. split; [done|]. by split.
Qed.


(** A path with an extension other than [tif] finds no lazy constructor,
    and the call of the missing constructor raises [TypeError]. *)
Lemma imread_lazy_unregistered filepath ch σ :
  contains_char "."%char filepath = true →
  extension filepath ≠ "tif" →
  imread filepath true ch σ
  = (Err (TypeError "'NoneType' object is not callable"), σ).
Proof.
  intros Hdot Hext. unfold imread, lazy_readers. rewrite Hdot. simpl.
  by rewrite lookup_singleton_ne.
Qed.

(** C6 (as the code has it).  [imread('x.bin', lazy=True)] does not fail
    with [NotImplementedError]: the lookup of the lazy constructor yields
    [None] and calling it raises [TypeError].  The eager branch guards the
    same lookup and raises [NotImplementedError]. *)
Theorem imread_lazy_bin_raises_TypeError (ch : option Z) (σ : heap) :
  imread "x.bin" true ch σ
  = (Err (TypeError "'NoneType' object is not callable"), σ) ∧
  imread "x.bin" false ch σ
  = (Err (NotImplementedError "Cannot read image of type bin"), σ).
Proof.
  split.
  - apply imread_lazy_unregistered; [done|]. by vm_compute.
  - unfold imread. simpl.
    change (extension "x.bin") with "bin".
    unfold eager_readers.
    by rewrite !lookup_insert_ne, lookup_singleton_ne.
Qed.

(** The channel selection of [imread] on a 4-dimensional array: it indexes
    the transposed array. *)
Lemma select_channel_4d (raw post : ndarray) (c : Z) (F C H W : nat) :
  nd_shape raw = [F; C; H; W] →
  np_transpose raw [0; 2; 3; 1]%nat = Ok post →
  nd_shape post = [F; H; W; C] →
  select_channel raw (Some c)
  = nd_getitem post [IxSlice slice_all; IxSlice slice_all;
                     IxSlice slice_all; IxInt c].
Proof.
  intros Hsh Hpost Hsh'. unfold select_channel.
  assert (nd_ndim raw = 4%nat) as -> by (unfold nd_ndim; by rewrite Hsh).
  change (4 =? 4)%nat with true. cbn iota. rewrite Hpost.
  unfold mbind, res_bind.
  assert (nd_ndim post = 4%nat) as -> by (unfold nd_ndim; by rewrite Hsh').
  done.
Qed.

Lemma select_channel_not_4d (raw : ndarray) (c : Z) :
  nd_ndim raw ≠ 4%nat →
  select_channel raw (Some c)
  = Err (NotImplementedError
           ("Cant select channel with " +:+ pretty (nd_ndim raw) +:+ " dimensions")).
Proof.
  intros Hnd. unfold select_channel.
  rewrite (proj2 (Nat.eqb_neq _ _) Hnd). unfold mbind, res_bind.
  by rewrite (proj2 (Nat.eqb_neq _ _) Hnd).
Qed.

(** C7 (amended).  An eager read that finds a reader and decodes an array,
    called with a channel selector [c]: when the array is 4-dimensional,
    of shape (F, H, W, C) once transposed ([C], a dimension of an array,
    being a C index), the result for [-C <= c < C] is the 3-dimensional
    array of shape (F, H, W) holding channel [c] (counted from the end
    when negative); for any other [c] no array is returned: the call
    fails, with [IndexError] when [c] is a C index; when the array is not
    4-dimensional the call fails with [NotImplementedError]. *)
Theorem imread_selects_channel
    (filepath : string) (c : Z) (σ : heap) (rd : reader) (raw : ndarray) :
  contains_char "."%char filepath = true →
  eager_readers !! extension filepath = Some rd →
  read_with rd filepath = Ok raw →
  (∀ F C H W, nd_shape raw = [F; C; H; W] → Z.of_nat C < 2 ^ 63 →
     ∃ post, np_transpose raw [0; 2; 3; 1]%nat = Ok post ∧
       nd_shape post = [F; H; W; C] ∧
       (- Z.of_nat C ≤ c < Z.of_nat C →
          ∃ r, imread filepath false (Some c) σ = (Ok (Array r), σ) ∧
            nd_shape r = [F; H; W] ∧
            ∀ f y x, (f < F)%nat → (y < H)%nat → (x < W)%nat →
              nd_item r [f; y; x]
              = nd_item post [f; y; x;
                              Z.to_nat (if c <? 0 then c + Z.of_nat C else c)]) ∧
       (c < - Z.of_nat C ∨ Z.of_nat C ≤ c →
          ∃ e, imread filepath false (Some c) σ = (Err e, σ) ∧
            (- 2 ^ 63 ≤ c < 2 ^ 63 → ∃ msg, e = IndexError msg))) ∧
  (nd_ndim raw ≠ 4%nat →
     ∃ msg, imread filepath false (Some c) σ = (Err (NotImplementedError msg), σ)).
Proof.
  intros Hdot Hrd Hraw.
  assert (imread filepath false (Some c) σ
          = (a ← select_channel raw (Some c); Ok (Array a), σ)) as ->.
  { unfold imread. rewrite Hdot. simpl. rewrite Hrd.
    unfold mbind at 1, St_bind at 1, lift at 1. rewrite Hraw.
    unfold mbind, St_bind, res_bind, lift, mret, St_ret.
    by destruct (select_channel raw (Some c)). }
  split.
  - intros F C H W Hsh HC.
    destruct (np_transpose_channels_last raw F C H W Hsh) as (post & Hpost & Hsh' & _).
    exists post. split; [done|]. split; [done|].
    rewrite (select_channel_4d raw post c F C H W) by done.
    pose proof (getitem_channel post F H W C c Hsh') as Hget. simpl in Hget.
    split.
    + intros Hc. rewrite index_as_intp_fits in Hget by lia.
      destruct (Z.ltb_spec c (- Z.of_nat C)); [lia|].
      destruct (Z.leb_spec (Z.of_nat C) c); [lia|]. simpl in Hget.
      destruct Hget as (r & -> & Hr). by exists r.
    + intros Hc. destruct (index_as_intp c) as [c'|e] eqn:Hconv.
      * assert ((c <? - Z.of_nat C) || (Z.of_nat C <=? c) = true) as Hout.
        { apply orb_true_iff. rewrite Z.ltb_lt, Z.leb_le. lia. }
        rewrite Hout in Hget. destruct Hget as [msg ->].
        eexists. split; [done|]. intros _. by exists msg.
      * rewrite Hget. eexists. split; [done|]. intros Hfit.
        rewrite index_as_intp_fits in Hconv by done. discriminate.
  - intros Hnd. rewrite select_channel_not_4d by done. by eexists.
Qed.

(** ** Resolution *)

Lemma inject_Z_nonzero d : d ≠ 0 → Q2Qc (inject_Z d) ≠ 0%Qc.
Proof.
  intros Hd Heq. apply Hd.
  apply (f_equal this) in Heq. simpl in Heq.
  assert (Qred (inject_Z d) == 0)%Q as H0 by (by rewrite Heq).
  rewrite Qred_correct in H0. unfold Qeq in H0. simpl in H0. lia.
Qed.

(** [Fraction(n, d)] is the exact quotient: multiplied by [d] it gives
    [n]. *)
Lemma Fraction_exact n d q :
  Fraction n d = Ok q → (q * Q2Qc (inject_Z d) = Q2Qc (inject_Z n))%Qc.
Proof.
  unfold Fraction. destruct (Z.eqb_spec d 0); [done|]. intros [= <-].
  rewrite Qcmult_comm. apply Qcmult_div_r. by apply inject_Z_nonzero.
Qed.

(** C9.  For each of the tags 282 and 283 [resolution] gives the integer 1
    (equal to 1.0) when the tag is absent; for a tag holding the pair
    [(n, d)] with [d] not zero, the float conversion of the exact rational
    [n / d]; and for a pair with a zero denominator it raises
    [ZeroDivisionError], so that no infinity or NaN is returned.  The
    result is the pair (tag 283, tag 282). *)
Theorem resolution_rational_or_default
    {F : Type} (to_float : Qc → res F) (m : Metadata) :
  (∀ t, exif m !! t = None →
     tag_resolution to_float (meta_get m t None) = Ok (PyInt 1)) ∧
  (∀ t tag n d, exif m !! t = Some tag → tag_value tag = Some [n; d] → d ≠ 0 →
     ∃ q, (q * Q2Qc (inject_Z d) = Q2Qc (inject_Z n))%Qc ∧
       tag_resolution to_float (meta_get m t None)
       = (v ← to_float q; Ok (PyFloat v))) ∧
  (∀ t tag n, exif m !! t = Some tag → tag_value tag = Some [n; 0] →
     ∃ msg, tag_resolution to_float (meta_get m t None)
            = Err (ZeroDivisionError msg)) ∧
  resolution to_float m
  = (x ← tag_resolution to_float (meta_get m 282 None);
     y ← tag_resolution to_float (meta_get m 283 None);
     Ok (y, x)) ∧
  (∀ tag n, exif m !! 282 = Some tag → tag_value tag = Some [n; 0] →
     ∃ msg, resolution to_float m = Err (ZeroDivisionError msg)) ∧
  (∀ tag n x, exif m !! 283 = Some tag → tag_value tag = Some [n; 0] →
     tag_resolution to_float (meta_get m 282 None) = Ok x →
     ∃ msg, resolution to_float m = Err (ZeroDivisionError msg)).
Proof.
  assert (∀ t tag n, exif m !! t = Some tag → tag_value tag = Some [n; 0] →
            ∃ msg, tag_resolution to_float (meta_get m t None)
                   = Err (ZeroDivisionError msg)) as Hzero.
  { intros t tag n Ht Hv. unfold meta_get. rewrite Ht, Hv. by eexists. }
  split; [|split; [|split; [done|split; [done|split]]]].
  - intros t Ht. unfold meta_get. by rewrite Ht.
  - intros t tag n d Ht Hv Hd. unfold meta_get. rewrite Ht, Hv.
    unfold tag_resolution, Fraction_star.
    destruct (Fraction n d) as [q|] eqn:Hq.
    + exists q. split; [by apply Fraction_exact|done].
    + unfold Fraction in Hq. by rewrite (proj2 (Z.eqb_neq d 0)) in Hq.
  - intros tag n Ht Hv. destruct (Hzero _ _ _ Ht Hv) as [msg Hmsg].
    exists msg. unfold resolution. by rewrite Hmsg.
  - intros tag n x Ht Hv Hx. destruct (Hzero _ _ _ Ht Hv) as [msg Hmsg].
    exists msg. unfold resolution. by rewrite Hx, Hmsg.
Qed.

(** ** Further properties of the slice arithmetic *)

Lemma slice_indices_step s n start stop step :
  slice_indices s n = Ok (start, stop, step) →
  0 ≤ n ∧ step ≠ 0 ∧ step = default 1 (slice_step s).
Proof.
  unfold slice_indices.
  destruct (Z.ltb_spec n 0); [done|].
  destruct (Z.eqb_spec (default 1 (slice_step s)) 0); [done|].
  intros [= _ _ <-]. done.
Qed.

(** The count [slice_length] computes is the length of the range the slice
    resolves to. *)
Lemma slice_length_of_range s n start stop step idxs :
  slice_indices s n = Ok (start, stop, step) →
  py_range start stop step = Ok idxs →
  slice_length s n = Ok (Z.of_nat (length idxs)).
Proof.
  intros Hidx Hr.
  destruct (slice_indices_step _ _ _ _ _ Hidx) as (Hn & Hstep & _).
  unfold py_range in Hr. rewrite (proj2 (Z.eqb_neq step 0)) in Hr by done.
  injection Hr as <-.
  unfold slice_length. rewrite Hidx. simpl.
  destruct (Z.ltb_spec 0 step) as [Hpos|Hnpos].
  - rewrite range_loop_up_length by lia. by rewrite ceil_div_floor.
  - rewrite (proj2 (Z.ltb_lt step 0)) by lia.
    rewrite range_loop_down_length by lia.
    replace (start - stop - (step + 1)) with (start - stop + (- step - 1)) by lia.
    by rewrite ceil_div_floor by lia.
Qed.

(** X1.  A slice with a step other than zero has a length on every
    non-negative dimension, and this length is between 0 and the
    dimension. *)
Theorem slice_length_within_dimension (s : pyslice) (n : Z) :
  0 ≤ n → slice_step s ≠ Some 0 →
  ∃ m, slice_length s n = Ok m ∧ 0 ≤ m ≤ n.
Proof.
  intros Hn Hz.
  assert (default 1 (slice_step s) ≠ 0) as Hstep.
  { destruct (slice_step s) as [st|]; simpl; [congruence|lia]. }
  destruct (slice_indices_ok s n Hn Hstep) as (start & stop & Hidx & Hup & Hdown).
  unfold slice_length. rewrite Hidx. simpl.
  set (step := default 1 (slice_step s)) in *.
  destruct (Z.ltb_spec 0 step) as [Hpos|Hnpos].
  - eexists. split; [done|]. rewrite ceil_div_floor by done.
    pose proof (proj1 (ceil_div_spec (stop - start) step _ Hpos) eq_refl). nia.
  - rewrite (proj2 (Z.ltb_lt step 0)) by lia.
    eexists. split; [done|].
    replace (start - stop - (step + 1)) with (start - stop + (- step - 1)) by lia.
    rewrite ceil_div_floor by lia.
    pose proof (proj1 (ceil_div_spec (start - stop) (- step) _ ltac:(lia)) eq_refl).
    nia.
Qed.

(** The default slice selects a whole dimension. *)
Lemma slice_length_all (n : nat) :
  slice_length slice_all (Z.of_nat n) = Ok (Z.of_nat n).
Proof.
  rewrite (slice_length_of_range slice_all (Z.of_nat n) 0 (Z.of_nat n) 1
             (Z.of_nat <$> seq 0 n)).
  - by rewrite length_fmap, length_seq.
  - unfold slice_indices. simpl. by rewrite (proj2 (Z.ltb_ge _ _)) by lia.
  - apply py_range_full.
Qed.


(** ** Further properties of handles *)

(** [__iter__] reads the store once and leaves it as it is: the frames are
    those of [next_frame] along [frame_indices]. *)
Lemma iter_frames_unfold h σ :
  iter_frames h σ
  = (idxs ← frame_indices h (default [] (σ !! slices h));
     res_mapM (next_frame h (default [] (σ !! slices h))) idxs, σ).
Proof.
  unfold iter_frames, frame_indices, mbind at 1 2 3 4 5, St_bind, load, lift.
  destruct (first_slice _) as [s0|]; [|done]. simpl.
  destruct (shape_item _ _) as [N|]; [|done]. simpl.
  destruct (slice_indices _ _) as [[[start stop] step]|]; [|done]. simpl.
  by destruct (py_range _ _ _) as [idxs|].
Qed.

Lemma frame_indices_inv h l idxs :
  frame_indices h l = Ok idxs →
  ∃ s0 rest N start stop step,
    l = s0 :: rest ∧ shape h !! 0%nat = Some N ∧
    slice_indices s0 (Z.of_nat N) = Ok (start, stop, step) ∧
    py_range start stop step = Ok idxs.
Proof.
  unfold frame_indices, first_slice, shape_item, mbind, res_bind.
  destruct l as [|s0 rest]; [done|].
  destruct (shape h !! 0%nat) as [N|]; [|done].
  destruct (slice_indices _ _) as [[[start stop] step]|] eqn:Hidx; [|done].
  intros Hr. by exists s0, rest, N, start, stop, step.
Qed.

Lemma shape_length h : (length (shape h) ≤ ndim h)%nat.
Proof.
  unfold shape. destruct (Nat.ltb_spec (ndim h) 4); [done|]. simpl. lia.
Qed.

Lemma slice_shape_default sh : ∀ k,
  (length sh ≤ k)%nat →
  res_mapM (fun '(s, n) => slice_length s (Z.of_nat n))
    (zip (replicate k slice_all) sh)
  = Ok (Z.of_nat <$> sh).
Proof.
  induction sh as [|n sh IH]; intros k Hk.
  - by destruct k.
  - destruct k as [|k]; [simpl in Hk; lia|].
    simpl. rewrite slice_length_all. simpl. rewrite IH by (simpl in Hk; lia). done.
Qed.

(** X2.  A handle as constructed selects everything: its slices are all the
    default one, its slice shape is its shape and its length is
    [shape[0]]. *)
Theorem new_handle_selects_everything
    (fname : string) (ch : option Z) (σ σ' : heap) (h : ImageHandle) :
  TifImageHandle fname ch σ = (Ok h, σ') →
  σ' !! slices h = Some (replicate (ndim h) slice_all) ∧
  slice_shape h σ' = (Ok (Z.of_nat <$> shape h), σ') ∧
  ∀ N, shape h !! 0%nat = Some N → len h σ' = (Ok (Z.of_nat N), σ').
Proof.
  intros H. apply TifImageHandle_inv in H as (-> & Hs & _).
  assert ((σ ++ [replicate (ndim h) slice_all]) !! slices h
          = Some (replicate (ndim h) slice_all)) as Hl.
  { rewrite Hs, lookup_app_r, Nat.sub_diag by lia. done. }
  assert (slice_shape h (σ ++ [replicate (ndim h) slice_all])
          = (Ok (Z.of_nat <$> shape h), σ ++ [replicate (ndim h) slice_all])) as Hsh.
  { unfold slice_shape, mbind, St_bind, load, lift. rewrite Hl. simpl.
    by rewrite slice_shape_default by apply shape_length. }
  split; [done|]. split; [done|].
  intros N HN. unfold len, mbind, St_bind. rewrite Hsh. unfold lift.
  destruct (shape h) as [|N' sh]; [done|]. by injection HN as ->.
Qed.

(** X3.  The frames of an iteration: with [(start, stop, step)] the first
    slice resolved against [shape[0]], iterating leaves the store as it is,
    yields as many frames as the length of that slice, and frame number [k]
    is [get(start + k * step)] cut by the remaining slices. *)
Theorem iteration_yields_selected_frames
    (h : ImageHandle) (σ σ' : heap) (s0 : pyslice) (rest : list pyslice)
    (N : nat) (start stop step : Z) (frames : list ndarray) :
  σ !! slices h = Some (s0 :: rest) →
  shape h !! 0%nat = Some N →
  slice_indices s0 (Z.of_nat N) = Ok (start, stop, step) →
  iter_frames h σ = (Ok frames, σ') →
  σ' = σ ∧
  slice_length s0 (Z.of_nat N) = Ok (Z.of_nat (length frames)) ∧
  ∀ k frame, frames !! k = Some frame →
    ∃ raw, get h (start + Z.of_nat k * step) = Ok raw ∧
           nd_getitem raw (IxSlice <$> rest) = Ok frame.
Proof.
  intros Hl HN Hidx. rewrite iter_frames_unfold, Hl. simpl.
  unfold frame_indices, first_slice, shape_item. rewrite HN. simpl.
  rewrite Hidx. simpl.
  destruct (py_range start stop step) as [idxs|] eqn:Hr; [|done]. simpl.
  destruct (res_mapM _ idxs) as [fs|] eqn:Hfs; [|done].
  intros [= -> <-]. split; [done|].
  apply res_mapM_ok in Hfs.
  pose proof (Forall2_length _ _ _ Hfs) as Hlen. split.
  - rewrite <- Hlen. by eapply slice_length_of_range.
  - intros k frame Hk.
    destruct (Forall2_lookup_r _ _ _ _ _ Hfs Hk) as (i & Hi & Hnext).
    unfold py_range in Hr. destruct (step =? 0); [done|]. injection Hr as <-.
    apply range_loop_lookup in Hi as ->.
    unfold next_frame, mbind, res_bind in Hnext. simpl in Hnext.
    destruct (get h _) as [raw|]; [|done]. by exists raw.
Qed.

(** X4.  [len(h)] is the number of frames that iterating [h] yields. *)
Theorem len_counts_frames
    (h : ImageHandle) (σ σ1 σ2 : heap) (n : Z) (frames : list ndarray) :
  len h σ = (Ok n, σ1) →
  iter_frames h σ = (Ok frames, σ2) →
  n = Z.of_nat (length frames).
Proof.
  intros Hlen. rewrite iter_frames_unfold.
  destruct (frame_indices h _) as [idxs|] eqn:Hidxs; [|done]. simpl.
  destruct (res_mapM _ idxs) as [fs|] eqn:Hfs; [|done].
  intros [= <- <-].
  apply res_mapM_ok, Forall2_length in Hfs. rewrite <- Hfs.
  destruct (frame_indices_inv _ _ _ Hidxs)
    as (s0 & rest & N & start & stop & step & Hl & HN & Hidx & Hr).
  pose proof (slice_length_of_range _ _ _ _ _ _ Hidx Hr) as Hsl.
  unfold len, slice_shape, mbind, St_bind, load, lift in Hlen.
  rewrite Hl in Hlen.
  destruct (shape h) as [|N' sh]; [done|]. injection HN as ->.
  simpl in Hlen. rewrite Hsl in Hlen. simpl in Hlen.
  destruct (res_mapM _ (zip rest sh)); [|done].
  simpl in Hlen. by injection Hlen as <- _.
Qed.


Lemma range_loop_reverse fuel :
  range_loop fuel (Z.of_nat fuel - 1) (-1) (-1)
  = reverse (Z.of_nat <$> seq 0 fuel).
Proof.
  induction fuel as [|fuel IH]; [done|].
  rewrite seq_S, fmap_app.
  change (Z.of_nat <$> [(0 + fuel)%nat]) with [Z.of_nat fuel].
  rewrite reverse_snoc. cbn [range_loop].
  unfold range_continues. change (0 <? -1) with false. cbn iota.
  rewrite (proj2 (Z.ltb_lt _ _)) by lia.
  f_equal; [lia|]. rewrite <- IH. f_equal. lia.
Qed.

(** [range(N - 1, -1, -1)] is [range(0, N, 1)] backwards. *)
Lemma py_range_reverse (N : nat) :
  py_range (Z.of_nat N - 1) (-1) (-1) = Ok (reverse (Z.of_nat <$> seq 0 N)).
Proof.
  unfold py_range. simpl. f_equal. rewrite <- range_loop_reverse. f_equal. lia.
Qed.

Lemma res_mapM_reverse {A B} (f : A → res B) (l : list A) (bs : list B) :
  res_mapM f l = Ok bs → res_mapM f (reverse l) = Ok (reverse bs).
Proof.
  intros H. apply res_mapM_complete, Forall2_reverse. by apply res_mapM_ok.
Qed.

(** X5.  Two handles on the same series whose slices differ in the first
    one only, [::-1] against [:] : when iterating the second yields its
    frames, iterating the first yields the same frames in reverse order. *)
Theorem reversed_slice_reverses_frames
    (a b : ImageHandle) (σ σ' : heap) (rest : list pyslice)
    (frames : list ndarray) :
  data a = data b →
  σ !! slices a = Some (Slice None None (Some (-1)) :: rest) →
  σ !! slices b = Some (slice_all :: rest) →
  iter_frames b σ = (Ok frames, σ') →
  iter_frames a σ = (Ok (reverse frames), σ).
Proof.
  intros Hd Ha Hb. rewrite !iter_frames_unfold, Ha, Hb. simpl.
  assert (shape a = shape b) as Hsh by (unfold shape, ndim; by rewrite Hd).
  unfold frame_indices, first_slice. rewrite Hsh. simpl.
  destruct (shape_item (shape b) 0) as [N|]; [|done]. simpl.
  assert (slice_indices slice_all (Z.of_nat N) = Ok (0, Z.of_nat N, 1)) as ->.
  { unfold slice_indices. simpl. by rewrite (proj2 (Z.ltb_ge _ _)) by lia. }
  assert (slice_indices (Slice None None (Some (-1))) (Z.of_nat N)
          = Ok (Z.of_nat N - 1, -1, -1)) as ->.
  { unfold slice_indices. simpl. by rewrite (proj2 (Z.ltb_ge _ _)) by lia. }
  cbv beta iota zeta delta [mbind res_bind].
  rewrite py_range_full, py_range_reverse. cbv beta iota.
  destruct (res_mapM _ (Z.of_nat <$> seq 0 N)) as [fs|] eqn:Hfs; [|done].
  intros [= <- _].
  erewrite res_mapM_ext; [by erewrite res_mapM_reverse|].
  intros i. unfold next_frame. by rewrite (get_same_data a b i Hd).
Qed.

(** The loop of the tuple case stops with [IndexError] at a non-default
    entry that falls outside the list. *)
Lemma assign_slices_out_of_range r val : ∀ i σ l k s,
  σ !! r = Some l →
  val !! k = Some s → s ≠ slice_all → (length l ≤ i + k)%nat →
  ∃ σ', assign_slices r i val σ
        = (Err (IndexError "list assignment index out of range"), σ').
Proof.
  induction val as [|s0 val IH]; intros i σ l k s Hl Hk Hs Hlen; [done|].
  simpl. unfold mbind, St_bind. case_decide as Hs0.
  - unfold store_item at 1. rewrite Hl. simpl.
    destruct (Nat.ltb_spec i (length l)) as [Hi|Hi]; [|by eexists].
    destruct k as [|k]; [lia|]. simpl in Hk.
    eapply (IH (S i) _ (<[i:=s0]> l) k s); [|done|done|].
    + apply list_lookup_insert_eq. by eapply lookup_lt_Some.
    + rewrite length_insert. lia.
  - destruct k as [|k]; simpl in Hk.
    + injection Hk as ->. by destruct Hs0.
    + unfold mret, St_ret. eapply (IH (S i) _ l k s); [done..|lia].
Qed.

(** X6.  Indexing with a tuple that has an entry other than the default at a
    position past the list of slices raises [IndexError] (a default entry
    there is passed over) and leaves the slices of the handle as they
    are. *)
Theorem getitem_tuple_too_long
    (h : ImageHandle) (ss : list pyslice) (σ : heap) (l : list pyslice)
    (k : nat) (s : pyslice) :
  σ !! slices h = Some l →
  is_ok (fst (copy h σ)) = true →
  ss !! k = Some s → s ≠ slice_all → (length l ≤ k)%nat →
  ∃ σ', getitem h (KTuple ss) σ
        = (Err (IndexError "list assignment index out of range"), σ') ∧
        σ' !! slices h = Some l.
Proof.
  intros Hl Hc Hk Hs Hlen.
  assert (slices h < length σ)%nat as Hlt by (by eapply lookup_lt_Some).
  destruct (getitem h (KTuple ss) σ) as [r σ'] eqn:Hget.
  pose proof (getitem_frame _ _ _ _ _ Hget _ _ Hl) as Hkeep.
  exists σ'. split; [|done].
  simpl in Hget. unfold mbind, St_bind in Hget.
  destruct (copy h σ) as [[obj|e] σ1] eqn:Hcp; [|done].
  pose proof (copy_inv _ _ _ _ Hcp) as (-> & _).
  unfold load, alloc in Hget. rewrite lookup_app_l, Hl in Hget by done.
  simpl in Hget.
  edestruct (assign_slices_out_of_range
               (length (σ ++ [replicate (ndim obj) slice_all])) ss O
               ((σ ++ [replicate (ndim obj) slice_all]) ++ [l]) l k s)
    as [σ2 Hσ2]; [|done|done|simpl; lia|].
  - rewrite lookup_app_r by lia. by rewrite Nat.sub_diag.
  - rewrite Hσ2 in Hget. by injection Hget as <- <-.
Qed.

(** X7.  Indexing with a tuple and then with another one composes: the final
    slices are the slices of the first handle overlaid with the first tuple
    and then with the second, so that at each position the last non-default
    entry wins; the lists of the two earlier handles are untouched. *)
Theorem getitem_tuple_composes
    (h a b : ImageHandle) (t1 t2 l : list pyslice) (σ σ1 σ2 : heap) :
  σ !! slices h = Some l →
  getitem h (KTuple t1) σ = (Ok (Handle a), σ1) →
  getitem a (KTuple t2) σ1 = (Ok (Handle b), σ2) →
  σ2 !! slices b = Some (replace_non_default (replace_non_default l t1) t2) ∧
  σ2 !! slices a = Some (replace_non_default l t1) ∧
  σ2 !! slices h = Some l ∧
  ∀ j s0, l !! j = Some s0 →
    replace_non_default (replace_non_default l t1) t2 !! j
    = Some (match t2 !! j with
            | Some s2 =>
                if decide (s2 = slice_all) then
                  match t1 !! j with
                  | Some s1 => if decide (s1 = slice_all) then s0 else s1
                  | None => s0
                  end
                else s2
            | None =>
                match t1 !! j with
                | Some s1 => if decide (s1 = slice_all) then s0 else s1
                | None => s0
                end
            end).
Proof.
  intros Hl H1 H2.
  destruct (getitem_tuple_slices _ _ _ _ _ _ Hl H1) as (la & Ha & _ & _ & -> & Hl1).
  destruct (getitem_tuple_slices _ _ _ _ _ _ Ha H2) as (lb & Hb & _ & _ & -> & Ha2).
  split; [done|]. split; [done|].
  split; [by eapply getitem_frame|].
  intros j s0 Hj. unfold replace_non_default.
  rewrite !list_lookup_imap, Hj. simpl.
  by destruct (t2 !! j) as [s2|]; [destruct (decide (s2 = slice_all))|].
Qed.

Lemma copy_channel h σ obj σ' :
  copy h σ = (Ok obj, σ') → channel h ≠ 0 → channel obj = channel h.
Proof.
  intros H Hch. apply TifImageHandle_inv in H as (_ & _ & _ & -> & _).
  simpl. by rewrite (proj2 (Z.eqb_neq _ _)).
Qed.

(** X8.  A handle is constructed with the file name it is given and a
    channel other than 0 ([channel=0] and [channel=None] both give channel
    1); and the handle that indexing returns has the file name, the channel
    and, the file being unchanged, the series of the handle it comes
    from. *)
Theorem handles_keep_file_and_channel :
  (∀ fname ch σ h σ',
     TifImageHandle fname ch σ = (Ok h, σ') →
     filename h = fname ∧ channel h ≠ 0 ∧
     (ch = None ∨ ch = Some 0 → channel h = 1) ∧
     (∀ c, ch = Some c → c ≠ 0 → channel h = c)) ∧
  (∀ h val σ h' σ',
     handle_ok σ h → channel h ≠ 0 →
     getitem h val σ = (Ok (Handle h'), σ') →
     filename h' = filename h ∧ channel h' = channel h ∧ data h' = data h).
Proof.
  split.
  - intros fname ch σ h σ' H.
    apply TifImageHandle_inv in H as (_ & _ & -> & -> & _).
    split; [done|]. unfold channel_or_1. split; [|split].
    + destruct ch as [c|]; [|done]. by destruct (Z.eqb_spec c 0).
    + by intros [->| ->].
    + intros c -> Hc. by rewrite (proj2 (Z.eqb_neq _ _)).
  - intros h val σ h' σ' [Hopen (l & Hl & _)] Hch H.
    destruct val as [i|s|ss|?|?|]; try done.
    + simpl in H. unfold mbind, St_bind, lift in H. by destruct (get h i).
    + simpl in H. unfold mbind, St_bind in H.
      destruct (copy h σ) as [[obj|e] σ1] eqn:Hc; [|done].
      destruct (store_item _ _ _ _) as [[[]|e] σ2]; [|done].
      injection H as <- <-.
      pose proof (copy_channel _ _ _ _ Hc Hch) as Hch'.
      apply copy_inv in Hc as (_ & _ & Hf & Ho).
      rewrite Hopen in Ho. by injection Ho as ->.
    + destruct (getitem_tuple_inv _ _ _ _ _ _ Hl H)
        as (obj & σ2 & Hc & _ & _ & Hd & Hf & _).
      simpl in H. unfold mbind, St_bind in H. rewrite Hc in H.
      unfold load, alloc in H.
      destruct (assign_slices _ _ _ _) as [[[]|e] σ3]; [|done].
      injection H as <- _. simpl.
      pose proof (copy_channel _ _ _ _ Hc Hch) as Hch'.
      apply copy_inv in Hc as (_ & _ & Hf' & Ho).
      rewrite Hopen in Ho. by injection Ho as ->.
Qed.

(** X9.  Indexing with a single slice, the file opening again: on a series
    of dimension 0 it raises [IndexError]; otherwise it returns a handle
    whose slices are that slice followed by default slices, whatever the
    slices of the indexed handle were. *)
Theorem getitem_slice_starts_afresh
    (h : ImageHandle) (s : pyslice) (σ : heap) :
  handle_ok σ h →
  is_ok (fst (copy h σ)) = true →
  (ndim h = 0%nat →
     ∃ σ', getitem h (KSlice s) σ
           = (Err (IndexError "list assignment index out of range"), σ')) ∧
  ((0 < ndim h)%nat →
     ∃ h' σ', getitem h (KSlice s) σ = (Ok (Handle h'), σ') ∧
       σ' !! slices h' = Some (s :: replicate (ndim h - 1) slice_all)).
Proof.
  intros [Hopen _] Hc. simpl. unfold mbind, St_bind.
  destruct (copy h σ) as [[obj|e] σ1] eqn:Hcp; [|done].
  apply copy_inv in Hcp as (-> & Hobj & _ & Ho).
  rewrite Hopen in Ho. injection Ho as Hd.
  assert (ndim obj = ndim h) as Hnd by (unfold ndim; by rewrite Hd).
  unfold store_item.
  rewrite Hobj, lookup_app_r, Nat.sub_diag by lia. simpl.
  rewrite length_replicate, Hnd. split.
  - intros ->. simpl. by eexists.
  - intros Hpos. rewrite (proj2 (Nat.ltb_lt _ _)) by done.
    eexists _, _. split; [done|]. rewrite Hobj.
    rewrite list_lookup_insert_eq by (rewrite length_app; simpl; lia).
    f_equal. destruct (ndim h) as [|n]; [lia|]. simpl. by rewrite Nat.sub_0_r.
Qed.


(** ** Further properties of reading and writing *)

Lemma split_on_pieces sep s :
  ∃ piece pieces, split_on sep s = piece :: pieces ∧
    (contains_char sep s = false → pieces = [] ∧ piece = s) ∧
    (contains_char sep s = true → pieces ≠ []).
Proof.
  induction s as [|c s IH]; simpl.
  - by exists EmptyString, [].
  - destruct IH as (piece & pieces & Hsplit & Hno & Hyes).
    destruct (Ascii.eqb c sep).
    + eexists _, _. split; [done|]. split; [done|]. intros _. by rewrite Hsplit.
    + rewrite Hsplit. exists (String c piece), pieces. split; [done|]. split; [|done].
      intros Hc. destruct (Hno Hc) as [-> ->]. done.
Qed.

(** The last piece of a split: it holds no separator, it is the whole string
    when there is no separator, and otherwise the string ends with the
    separator followed by it. *)
Lemma split_on_last sep s :
  let e := List.last (split_on sep s) EmptyString in
  contains_char sep e = false ∧
  (contains_char sep s = false → e = s) ∧
  (contains_char sep s = true → ∃ pre, s = pre +:+ String sep e).
Proof.
  induction s as [|c s IH]; [done|].
  destruct (split_on_pieces sep s) as (piece & pieces & Hsplit & Hno & Hyes).
  simpl in IH. destruct IH as (IHe & IHno & IHyes).
  cbn [split_on contains_char].
  destruct (Ascii.eqb c sep) eqn:Hc.
  - apply Ascii.eqb_eq in Hc as ->.
    assert (List.last (EmptyString :: split_on sep s) EmptyString
            = List.last (split_on sep s) EmptyString) as ->.
    { by rewrite Hsplit. }
    cbn zeta. split; [done|]. split; [done|]. intros _.
    destruct (contains_char sep s) eqn:Hs.
    + destruct (IHyes eq_refl) as [pre Hpre].
      exists (String sep pre). exact (f_equal (String sep) Hpre).
    + exists EmptyString. by rewrite IHno.
  - rewrite Hsplit in *. destruct (contains_char sep s) eqn:Hs.
    + destruct pieces as [|p2 pieces]; [by destruct (Hyes eq_refl)|].
      change (List.last (String c piece :: p2 :: pieces) EmptyString)
        with (List.last (piece :: p2 :: pieces) EmptyString).
      cbn zeta. split; [done|]. split; [done|]. intros _.
      destruct (IHyes eq_refl) as [pre Hpre].
      exists (String c pre). exact (f_equal (String c) Hpre).
    + destruct (Hno eq_refl) as [-> ->]. cbn [List.last contains_char].
      rewrite Hc. cbn zeta. by split.
Qed.

(** X10.  The extension [filepath.split('.')[-1]] that [imread] and
    [imwrite] dispatch on holds no dot, and a path with a dot is some
    prefix, a dot and the extension: the extension is what follows the last
    dot (so [archive.tar.gz] has extension [gz], and a dot in a directory
    name counts too). *)
Theorem extension_follows_last_dot (filepath : string) :
  contains_char "."%char (extension filepath) = false ∧
  (contains_char "."%char filepath = true →
     ∃ pre, filepath = pre +:+ "." +:+ extension filepath) ∧
  (contains_char "."%char filepath = false → extension filepath = filepath).
Proof.
  destruct (split_on_last "."%char filepath) as (He & Hno & Hyes).
  split; [done|]. split; [|done]. apply Hyes.
Qed.

(** X11.  An eager read without channel selector, of a path whose extension
    has a reader: an error of the reader is passed on; a 4-dimensional
    array (frames, channel, y, x) comes back as (frames, y, x, channel),
    element for element; an array of any other dimension comes back as it
    is.  The store is not touched. *)
Theorem imread_eager_channels_last
    (filepath : string) (σ : heap) (rd : reader) :
  contains_char "."%char filepath = true →
  eager_readers !! extension filepath = Some rd →
  match read_with rd filepath with
  | Err e => imread filepath false None σ = (Err e, σ)
  | Ok raw =>
      (∀ F C H W, nd_shape raw = [F; C; H; W] →
         ∃ post, imread filepath false None σ = (Ok (Array post), σ) ∧
           nd_shape post = [F; H; W; C] ∧
           ∀ f y x c, nd_item post [f; y; x; c] = nd_item raw [f; c; y; x]) ∧
      (nd_ndim raw ≠ 4%nat →
         imread filepath false None σ = (Ok (Array raw), σ))
  end.
Proof.
  intros Hdot Hrd. unfold imread. rewrite Hdot. simpl. rewrite Hrd.
  unfold mbind at 1, St_bind at 1, lift at 1.
  destruct (read_with rd filepath) as [raw|e]; [|done].
  unfold mbind, St_bind, lift, mret, St_ret, select_channel. split.
  - intros F C H W Hsh.
    destruct (np_transpose_channels_last raw F C H W Hsh) as (post & Hpost & Hsh' & Hitem).
    exists post. unfold nd_ndim. rewrite Hsh. simpl length.
    change (4 =? 4)%nat with true. cbn iota. rewrite Hpost. by simpl.
  - intros Hnd. by rewrite (proj2 (Nat.eqb_neq _ _) Hnd).
Qed.

(** X12.  A lazy read of a path with extension [tif]: an error of the EXIF
    reader or of the decoder opening the file is passed on and nothing is
    allocated; otherwise the result is a handle on that file and series,
    with the tags read, channel [channel or 1] and a new list of default
    slices, for which [len(slices) == ndim] holds. *)
Theorem imread_lazy_tif
    (filepath : string) (ch : option Z) (σ : heap) :
  contains_char "."%char filepath = true →
  extension filepath = "tif" →
  match read_exif filepath, open_series filepath with
  | Err e, _ => imread filepath true ch σ = (Err e, σ)
  | Ok _, Err e => imread filepath true ch σ = (Err e, σ)
  | Ok tags, Ok d =>
      ∃ h, imread filepath true ch σ
           = (Ok (Lazy h), σ ++ [replicate (length (series_shape d)) slice_all]) ∧
        filename h = filepath ∧ data h = d ∧ exif (meta h) = tags ∧
        channel h = channel_or_1 ch ∧ slices h = length σ ∧
        handle_ok (σ ++ [replicate (length (series_shape d)) slice_all]) h
  end.
Proof.
  intros Hdot Hext. unfold imread, lazy_readers. rewrite Hdot, Hext. simpl.
  rewrite lookup_singleton_eq.
  unfold TifImageHandle, Metadata_init, get_data, mbind at 1 2 3 4, St_bind, lift.
  unfold mbind, res_bind.
  destruct (read_exif filepath) as [tags|e]; [|done].
  destruct (open_series filepath) as [d|e] eqn:Hopen; [|done].
  unfold alloc, mret, St_ret. eexists. split; [done|]. simpl.
  repeat split; try done.
  exists (replicate (length (series_shape d)) slice_all).
  cbn [slices]. rewrite lookup_app_r, Nat.sub_diag by lia. split; [done|].
  by rewrite length_replicate.
Qed.

(** X13.  [imwrite] on a path without a dot raises [ValueError]; with
    extension [tif] it is the TIFF writer and with [mp4] the MP4 writer,
    called with the path, the data, the metadata and the extra options (the
    frame time and the frame rate are not passed on); with any other
    extension it raises [NotImplementedError].  The store is touched by the
    writer only. *)
Theorem imwrite_dispatch
    (filepath : string) (data : image) (meta : option Metadata)
    (frame_time : flt) (max_fps : Z) (kw : kwargs) (σ : heap) :
  (contains_char "."%char filepath = false →
     imwrite filepath data meta frame_time max_fps kw σ
     = (Err (ValueError ("missing extension in filename: " +:+ filepath)), σ)) ∧
  (contains_char "."%char filepath = true →
     (extension filepath = "tif" →
        imwrite filepath data meta frame_time max_fps kw σ
        = write_with tif_write filepath data meta kw σ) ∧
     (extension filepath = "mp4" →
        imwrite filepath data meta frame_time max_fps kw σ
        = write_with mp4_write filepath data meta kw σ) ∧
     (extension filepath ≠ "tif" → extension filepath ≠ "mp4" →
        imwrite filepath data meta frame_time max_fps kw σ
        = (Err (NotImplementedError
                  ("Cannot write image of type " +:+ extension filepath)), σ))).
Proof.
  unfold imwrite, writers. split.
  - by intros ->.
  - intros ->. simpl. split; [|split].
    + intros ->. by rewrite lookup_insert_eq.
    + intros ->. by rewrite lookup_insert_ne, lookup_singleton_eq.
    + intros H1 H2. by rewrite lookup_insert_ne, lookup_singleton_ne.
Qed.


(** ** Slices seen late *)

Lemma shape_nonempty h : (0 < ndim h)%nat → ∃ N, shape h !! 0%nat = Some N.
Proof.
  unfold shape, ndim. intros Hpos.
  destruct (Nat.ltb_spec (length (series_shape (data h))) 4); [|by eexists].
  destruct (series_shape (data h)) as [|N sh]; [simpl in Hpos; lia|by exists N].
Qed.

(** Indexing with a single slice returns a handle on a series of at least
    one dimension, when the file opens again. *)
Lemma getitem_slice_ok h s σ :
  handle_ok σ h → is_ok (fst (copy h σ)) = true → (0 < ndim h)%nat →
  ∃ h' σ', getitem h (KSlice s) σ = (Ok (Handle h'), σ') ∧
    σ' !! slices h' = Some (s :: replicate (ndim h - 1) slice_all) ∧
    data h' = data h.
Proof.
  intros [Hopen _] Hc Hpos. simpl. unfold mbind, St_bind.
  destruct (copy h σ) as [[obj|e] σ1] eqn:Hcp; [|done].
  apply copy_inv in Hcp as (-> & Hobj & _ & Ho).
  rewrite Hopen in Ho. injection Ho as Hd.
  assert (ndim obj = ndim h) as Hnd by (unfold ndim; by rewrite Hd).
  unfold store_item.
  rewrite Hobj, lookup_app_r, Nat.sub_diag by lia. simpl.
  rewrite length_replicate, Hnd, (proj2 (Nat.ltb_lt _ _)) by done.
  eexists _, _. split; [done|]. split; [|done]. rewrite Hobj.
  rewrite list_lookup_insert_eq by (rewrite length_app; simpl; lia).
  f_equal. destruct (ndim h) as [|n]; [lia|]. simpl. by rewrite Nat.sub_0_r.
Qed.

(** X18.  A slice with step zero is accepted by indexing: on a series of at
    least one dimension whose file opens again, [h[s]] returns a handle.
    The [ValueError] comes later, from [len] and from iterating that
    handle. *)
Theorem zero_step_is_seen_late
    (h : ImageHandle) (s : pyslice) (σ : heap) :
  handle_ok σ h → is_ok (fst (copy h σ)) = true → (0 < ndim h)%nat →
  slice_step s = Some 0 →
  ∃ h' σ', getitem h (KSlice s) σ = (Ok (Handle h'), σ') ∧
    len h' σ' = (Err (ValueError "slice step cannot be zero"), σ') ∧
    iter_frames h' σ' = (Err (ValueError "slice step cannot be zero"), σ').
Proof.
  intros Hok Hc Hpos Hstep.
  destruct (getitem_slice_ok h s σ Hok Hc Hpos) as (h' & σ' & Hget & Hl & Hd).
  exists h', σ'. split; [done|].
  assert (0 < ndim h')%nat as Hpos' by (unfold ndim in *; by rewrite Hd).
  destruct (shape_nonempty h' Hpos') as [N HN].
  assert (slice_indices s (Z.of_nat N)
          = Err (ValueError "slice step cannot be zero")) as Hidx.
  { unfold slice_indices. rewrite Hstep. simpl.
    by rewrite (proj2 (Z.ltb_ge _ _)) by lia. }
  split.
  - unfold len, slice_shape, mbind, St_bind, load, lift. rewrite Hl. simpl.
    destruct (shape h') as [|N' sh]; [done|]. injection HN as ->.
    simpl. unfold slice_length. by rewrite Hidx.
  - rewrite iter_frames_unfold, Hl. simpl.
    unfold frame_indices, first_slice, shape_item. rewrite HN. simpl.
    by rewrite Hidx.
Qed.

(** The shape that a tuple of slices cuts out of an array is made of the
    slice lengths. *)
Lemma index_plan_slices ss : ∀ axis sh sh' f,
  index_plan axis (IxSlice <$> ss) sh = Ok (sh', f) →
  length ss = length sh →
  res_mapM (fun '(s, n) => slice_length s (Z.of_nat n)) (zip ss sh)
  = Ok (Z.of_nat <$> sh').
Proof.
  induction ss as [|s ss IH]; intros axis sh sh' f.
  - destruct sh; [|done]. by intros [= <- _].
  - destruct sh as [|n sh]; [done|]. rewrite fmap_cons. cbn [index_plan].
    unfold mbind at 1, res_bind at 1.
    destruct (slice_indices s (Z.of_nat n)) as [[[start stop] step]|] eqn:Hidx;
      [|done].
    unfold mbind at 1, res_bind at 1.
    destruct (py_range start stop step) as [picked|] eqn:Hr; [|done].
    unfold mbind at 1, res_bind at 1.
    destruct (index_plan (S axis) (IxSlice <$> ss) sh) as [[sh'' f']|] eqn:Hplan;
      [|done].
    intros [= <- _] Hlen. simpl.
    rewrite (slice_length_of_range _ _ _ _ _ _ Hidx Hr). simpl.
    by rewrite (IH _ _ _ _ Hplan) by (simpl in Hlen; lia).
Qed.

(** X19.  The slice shape tells the shape of the frames: when every decoded
    frame has the shape [shape[1:]] and there is one slice per dimension,
    each frame that iterating yields has the shape [slice_shape[1:]]. *)
Theorem frames_have_slice_shape
    (h : ImageHandle) (σ σ1 σ2 : heap) (s0 : pyslice) (rest : list pyslice)
    (n0 : Z) (ns : list Z) (frames : list ndarray) :
  σ !! slices h = Some (s0 :: rest) →
  length rest = length (tail (shape h)) →
  (∀ i raw, get h i = Ok raw → nd_shape raw = tail (shape h)) →
  slice_shape h σ = (Ok (n0 :: ns), σ1) →
  iter_frames h σ = (Ok frames, σ2) →
  ∀ frame, frame ∈ frames → Z.of_nat <$> nd_shape frame = ns.
Proof.
  intros Hl Hlen Hraw Hss Hiter frame Hin.
  unfold slice_shape, mbind, St_bind, load, lift in Hss. rewrite Hl in Hss.
  simpl in Hss. destruct (shape h) as [|N sh] eqn:Hsh; [done|].
  simpl in Hss, Hlen, Hraw.
  destruct (slice_length s0 (Z.of_nat N)); [|done]. simpl in Hss.
  destruct (res_mapM _ (zip rest sh)) as [ns'|] eqn:Hns; [|done].
  simpl in Hss. injection Hss as _ <- _.
  rewrite iter_frames_unfold, Hl in Hiter. simpl in Hiter.
  destruct (frame_indices h _) as [idxs|]; [|done]. simpl in Hiter.
  destruct (res_mapM _ idxs) as [fs|] eqn:Hfs; [|done].
  injection Hiter as <- _.
  apply res_mapM_ok in Hfs.
  apply list_elem_of_lookup in Hin as [k Hk].
  destruct (Forall2_lookup_r _ _ _ _ _ Hfs Hk) as (i & _ & Hnext).
  unfold next_frame, mbind, res_bind in Hnext. simpl in Hnext.
  destruct (get h i) as [raw|] eqn:Hget; [|done].
  apply Hraw in Hget. unfold nd_getitem, nd_ndim in Hnext.
  rewrite prepare_index_slices in Hnext. unfold mbind at 1, res_bind at 1 in Hnext.
  rewrite Hget, length_fmap, Hlen, Nat.ltb_irrefl in Hnext.
  unfold mbind, res_bind in Hnext.
  destruct (index_plan 0 (IxSlice <$> rest) sh) as [[sh' f]|] eqn:Hplan; [|done].
  injection Hnext as <-. simpl.
  apply index_plan_slices in Hplan; [|done].
  rewrite Hplan in Hns. by injection Hns as <-.
Qed.


(** ** The planes of a frame *)


(** ** Writing a handle frame by frame *)

(** The page [imwrite_lazy] writes for a frame. *)
Local Abbreviation page_of h r :=
  (fun frame : ndarray => Page frame r (meta_dict (meta h))).

Lemma write_pages_ok ps : ∀ written,
  (∀ w p, tiff_write w p = Ok ()) →
  write_pages written ps = (Ok (), written ++ ps).
Proof.
  induction ps as [|p ps IH]; intros written Hw; simpl.
  - by rewrite app_nil_r.
  - rewrite Hw, IH by done. by rewrite <- app_assoc.
Qed.

(** When the frames decode, producing and writing them by turns is writing
    them after they are all there. *)
Lemma write_frames_decoded h l r idxs : ∀ written frames,
  res_mapM (next_frame h l) idxs = Ok frames →
  (frames ≠ [] → resolution float_of (meta h) = Ok r) →
  write_frames h l idxs written = write_pages written (page_of h r <$> frames).
Proof.
  induction idxs as [|i idxs IH]; intros written frames; simpl.
  - by intros [= <-].
  - unfold mbind, res_bind.
    destruct (next_frame h l i) as [f|]; [|done].
    destruct (res_mapM _ idxs) as [fs|] eqn:Hfs; [|done].
    intros [= <-] Hr. rewrite Hr by done. simpl.
    destruct (tiff_write written _) as [[]|e]; [|done].
    apply IH; [done|]. intros _. by apply Hr.
Qed.

(** X15.  The file opening and the frames of [list(h)] decoding,
    [imwrite_lazy] writes one page per frame, in the order of iteration,
    each with the resolution and the dictionary of the handle's metadata:
    it is the writing of these pages one after the other, and with a writer
    that accepts them the outcome is success with exactly these pages.  The
    resolution is not asked for when there is no frame. *)
Theorem imwrite_lazy_writes_iteration
    (fname : string) (h : ImageHandle) (imagej : bool) (σ σ' : heap)
    (frames : list ndarray) (r : pynum flt * pynum flt) :
  tiff_open fname = Ok () →
  iter_frames h σ = (Ok frames, σ') →
  (frames ≠ [] → resolution float_of (meta h) = Ok r) →
  imwrite_lazy fname h imagej σ = write_pages [] (page_of h r <$> frames) ∧
  ((∀ w p, tiff_write w p = Ok ()) →
     imwrite_lazy fname h imagej σ = (Ok (), page_of h r <$> frames)).
Proof.
  intros Hopen Hiter Hr. rewrite iter_frames_unfold in Hiter.
  assert (imwrite_lazy fname h imagej σ
          = write_pages [] (page_of h r <$> frames)) as Heq.
  { unfold imwrite_lazy. rewrite Hopen.
    destruct (frame_indices h _) as [idxs|]; [|done]. simpl in Hiter.
    destruct (res_mapM _ idxs) as [fs|] eqn:Hfs; [|done].
    injection Hiter as <- _. by apply write_frames_decoded. }
  split; [done|]. intros Hw. rewrite Heq. by apply write_pages_ok.
Qed.

(** What the loop has written when it stops, whatever the outcome. *)
Lemma write_frames_prefix h l idxs : ∀ written out written',
  write_frames h l idxs written = (out, written') →
  ∃ new, written' = written ++ new ∧
    (∀ j p, new !! j = Some p →
       ∃ i, idxs !! j = Some i ∧
         next_frame h l i = Ok (page_frame p) ∧
         resolution float_of (meta h) = Ok (page_resolution p) ∧
         page_metadata p = meta_dict (meta h)) ∧
    (length new ≤ length idxs)%nat ∧
    (out = Ok () → length new = length idxs).
Proof.
  induction idxs as [|i idxs IH]; intros written out written'; simpl.
  - intros [= <- <-]. exists []. rewrite app_nil_r. by repeat split.
  - unfold mbind, res_bind.
    destruct (next_frame h l i) as [f|] eqn:Hf.
    2: { intros [= <- <-]. exists []. rewrite app_nil_r.
         repeat split; (done || simpl; lia). }
    destruct (resolution float_of (meta h)) as [r|] eqn:Hr.
    2: { intros [= <- <-]. exists []. rewrite app_nil_r.
         repeat split; (done || simpl; lia). }
    simpl. destruct (tiff_write written _) as [[]|e].
    2: { intros [= <- <-]. exists []. rewrite app_nil_r.
         repeat split; (done || simpl; lia). }
    intros H. apply IH in H as (new & -> & Hnew & Hle & Hok).
    exists (Page f r (meta_dict (meta h)) :: new).
    split; [by rewrite <- app_assoc|]. split; [|split].
    + intros [|j] p Hp; simpl in Hp.
      * injection Hp as <-. by exists i.
      * destruct (Hnew j p Hp) as (i' & Hi' & Hrest). by exists i'.
    + simpl. lia.
    + intros Hout. simpl. by rewrite Hok.
Qed.

(** X16.  Whatever the outcome of [imwrite_lazy], the pages written are the
    first frames of the iteration, in order, each with the resolution and
    the dictionary of the handle's metadata: page [j] holds the frame of
    the [j]-th index.  There are as many pages as indices when the outcome
    is success, and an error leaves the pages written before it. *)
Theorem imwrite_lazy_writes_a_prefix
    (fname : string) (h : ImageHandle) (imagej : bool) (σ : heap)
    (l : list pyslice) (idxs : list Z)
    (out : res ()) (written : list (page flt mdict)) :
  σ !! slices h = Some l →
  frame_indices h l = Ok idxs →
  imwrite_lazy fname h imagej σ = (out, written) →
  (∀ j p, written !! j = Some p →
     ∃ i, idxs !! j = Some i ∧
       next_frame h l i = Ok (page_frame p) ∧
       resolution float_of (meta h) = Ok (page_resolution p) ∧
       page_metadata p = meta_dict (meta h)) ∧
  (length written ≤ length idxs)%nat ∧
  (out = Ok () → length written = length idxs).
Proof.
  intros Hl Hidxs. unfold imwrite_lazy. rewrite Hl. simpl. rewrite Hidxs.
  destruct (tiff_open fname) as [[]|e].
  - intros H. apply write_frames_prefix in H as (new & -> & Hnew & Hle & Hok).
    by simpl.
  - intros [= <- <-]. repeat split; (done || simpl; lia).
Qed.

(** X17.  With metadata whose resolution cannot be computed (a zero
    denominator, say), the file opening: [imwrite_lazy] succeeds and writes
    nothing when the handle selects no frame, and when the first frame
    decodes it raises the error of the resolution before any page is
    written. *)
Theorem imwrite_lazy_bad_resolution
    (fname : string) (h : ImageHandle) (imagej : bool) (σ : heap)
    (l : list pyslice) (idxs : list Z) (e : exn) :
  σ !! slices h = Some l →
  frame_indices h l = Ok idxs →
  tiff_open fname = Ok () →
  resolution float_of (meta h) = Err e →
  (idxs = [] → imwrite_lazy fname h imagej σ = (Ok (), [])) ∧
  (∀ i idxs' frame, idxs = i :: idxs' → next_frame h l i = Ok frame →
     imwrite_lazy fname h imagej σ = (Err e, [])).
Proof.
  intros Hl Hidxs Hopen Hr. unfold imwrite_lazy.
  rewrite Hopen, Hl. simpl. rewrite Hidxs. split.
  - by intros ->.
  - intros i idxs' frame -> Hf. simpl. by rewrite Hf, Hr.
Qed.


End Image.

(** ** The statements on the small world *)

Lemma slice_length_counts_range_witness :
  0 ≤ 10 ∧
  slice_length (Slice (Some 8) (Some 1) (Some (-3))) 10 = Ok 3 ∧
  slice_length (Slice None None (Some 0)) 10
  = Err (ValueError "slice step cannot be zero").
Proof.
  split; [lia|]. split.
  - pose proof (slice_length_counts_range (Slice (Some 8) (Some 1) (Some (-3))) 10
                  ltac:(lia)) as H.
    simpl in H. destruct H as (start & stop & step & idxs & Hi & _ & Hr & _ & _ & Hl & _).
    vm_compute in Hi. injection Hi as <- <- <-.
    vm_compute in Hr. injection Hr as <-.
    exact Hl.
  - exact (slice_length_counts_range (Slice None None (Some 0)) 10 ltac:(lia)).
Defined.

Local Abbreviation new_handle :=
  (TifImageHandle Sample.series_shape Sample.read_exif Sample.open_series).
Local Abbreviation index :=
  (getitem Sample.series_shape Sample.read_exif Sample.open_series Sample.asarray).
Local Abbreviation frame_at := (get Sample.series_shape Sample.asarray).
Local Abbreviation frame_shapes h σ :=
  (match fst (iter_frames Sample.series_shape Sample.asarray h σ) with
   | Ok frames => Ok (nd_shape <$> frames)
   | Err e => Err e
   end).
Local Abbreviation read :=
  (imread Sample.series_shape Sample.read_exif Sample.open_series Sample.read_with).
Local Abbreviation stack_handle r :=
  ({| filename := "stack.tif"; channel := 1;
      meta := Sample.metadata Sample.exif_tags;
      data := [10; 20; 30]%nat : Sample.series; slices := r |}).
Local Abbreviation all3 := [slice_all; slice_all; slice_all].
Local Notation "a ':to' b" := (Slice (Some a) (Some b) None) (at level 30).

(** C2 (as the code has it).  [h] is [stack.tif], of shape (10, 20, 30),
    narrowed to [0:3] in dimension 2.  Neither way of slicing touches the
    list of [h], but [h[2:5][:, 0:10]] and [h[2:5, 0:10]] differ: indexing
    with the single slice [2:5] starts again from the default slices, so
    the composed handle has lost the narrowing of dimension 2, and its
    slice shape and the shape of its frames show it. *)
Theorem composed_slicing_resets_other_dimensions :
  let h0 := stack_handle 0%nat in
  let h := stack_handle 2%nat in
  let a := stack_handle 3%nat in
  let composed := stack_handle 5%nat in
  let direct := stack_handle 7%nat in
  let σ0 := [all3] in
  let σ1 := σ0 ++ [all3; [slice_all; slice_all; 0 :to 3]] in
  let σ2 := σ1 ++ [[2 :to 5; slice_all; slice_all]] in
  let σ3 := σ2 ++ [all3; [2 :to 5; 0 :to 10; slice_all]] in
  let σ4 := σ3 ++ [all3; [2 :to 5; 0 :to 10; 0 :to 3]] in
  new_handle "stack.tif" None [] = (Ok h0, σ0) ∧
  index h0 (KTuple [slice_all; slice_all; 0 :to 3]) σ0 = (Ok (Handle h), σ1) ∧
  index h (KSlice (2 :to 5)) σ1 = (Ok (Handle a), σ2) ∧
  index a (KTuple [slice_all; 0 :to 10]) σ2 = (Ok (Handle composed), σ3) ∧
  index h (KTuple [2 :to 5; 0 :to 10]) σ3 = (Ok (Handle direct), σ4) ∧
  σ1 !! slices h = Some [slice_all; slice_all; 0 :to 3] ∧
  σ4 !! slices h = Some [slice_all; slice_all; 0 :to 3] ∧
  σ4 !! slices composed = Some [2 :to 5; 0 :to 10; slice_all] ∧
  σ4 !! slices direct = Some [2 :to 5; 0 :to 10; 0 :to 3] ∧
  fst (slice_shape Sample.series_shape composed σ4) = Ok [3; 10; 30] ∧
  fst (slice_shape Sample.series_shape direct σ4) = Ok [3; 10; 3] ∧
  frame_shapes composed σ4 = Ok [[10; 30]; [10; 30]; [10; 30]]%nat ∧
  frame_shapes direct σ4 = Ok [[10; 3]; [10; 3]; [10; 3]]%nat.
Proof. repeat split; by vm_compute. Qed.

Local Abbreviation rgb_handle :=
  ({| filename := "rgb.tif"; channel := 1;
      meta := Sample.metadata Sample.exif_tags;
      data := [4; 2; 3; 5]%nat : Sample.series; slices := 0%nat |}).
Local Abbreviation rgb_array :=
  ({| nd_shape := [2; 3; 4; 5]%nat; nd_item := Sample.digits |}).

Lemma getitem_other_returns_None_witness :
  index (stack_handle 0%nat) (KList [1; 2]) [all3] = (Ok PyNone, [all3]).
Proof. apply getitem_other_returns_None. reflexivity. Defined.

Lemma getitem_tuple_replaces_non_default_witness :
  ∃ h' σ',
    index (stack_handle 2%nat) (KTuple [2 :to 5; 0 :to 10])
      [all3; all3; [slice_all; slice_all; 0 :to 3]] = (Ok (Handle h'), σ') ∧
    σ' !! slices h' = Some [2 :to 5; 0 :to 10; 0 :to 3].
Proof.
  destruct (getitem_tuple_replaces_non_default
              Sample.series_shape Sample.read_exif Sample.open_series Sample.asarray
              (stack_handle 2%nat) [2 :to 5; 0 :to 10]
              [all3; all3; [slice_all; slice_all; 0 :to 3]]
              [slice_all; slice_all; 0 :to 3] eq_refl) as [Htotal Hslices].
  destruct Htotal as (h' & σ' & Hget).
  - reflexivity.
  - intros k s Hk _. apply lookup_lt_Some in Hk. simpl in *. lia.
  - destruct (Hslices h' σ' Hget) as (l' & Hl' & _ & _ & Heq & _).
    exists h', σ'. split; [exact Hget|]. rewrite Hl', Heq. reflexivity.
Defined.



Lemma get_stacks_channel_planes_witness :
  (∃ p2 p3,
     Sample.asarray (data rgb_handle) 2 = Ok p2 ∧
     Sample.asarray (data rgb_handle) 3 = Ok p3 ∧
     frame_at rgb_handle 1 = np_stack_last [p2; p3]) ∧
  frame_at (stack_handle 0%nat) 3 = Sample.asarray (data (stack_handle 0%nat)) 3.
Proof.
  split.
  - destruct (get_stacks_channel_planes Sample.series_shape Sample.asarray
                rgb_handle 1 4 eq_refl) as [H4 _]; [simpl; lia|].
    destruct (H4 eq_refl) as (nc & Hnc & _ & Hstack & _).
    vm_compute in Hnc. injection Hnc as <-.
    eexists _, _. split; [reflexivity|]. split; [reflexivity|].
    apply Hstack; [reflexivity|].
    intros [|[|c]] plane Hc; simpl in Hc; [| |done];
      injection Hc as <-; reflexivity.
  - destruct (get_stacks_channel_planes Sample.series_shape Sample.asarray
                (stack_handle 0%nat) 3 10 eq_refl) as [_ H3]; [simpl; lia|].
    apply H3. intros Hnd. vm_compute in Hnd. discriminate Hnd.
Defined.

Lemma imread_selects_channel_witness :
  (∃ r, read "rgb.tif" false (Some (-1)) [] = (Ok (Array r), []) ∧
     nd_shape r = [2; 4; 5]%nat) ∧
  (∃ msg, read "rgb.tif" false (Some 3) [] = (Err (IndexError msg), [])) ∧
  ∃ msg, read "stack.tif" false (Some 0) [] = (Err (NotImplementedError msg), []).
Proof.
  assert (eager_readers !! extension "rgb.tif" = Some tif_read) as Hrd
    by (vm_compute; reflexivity).
  assert (eager_readers !! extension "stack.tif" = Some tif_read) as Hrd'
    by (vm_compute; reflexivity).
  assert (Z.of_nat 3 < 2 ^ 63) as HC by (vm_compute; reflexivity).
  split; [|split].
  - destruct (imread_selects_channel
                Sample.series_shape Sample.read_exif Sample.open_series Sample.read_with
                "rgb.tif" (-1) [] tif_read rgb_array eq_refl Hrd eq_refl) as [H4 _].
    destruct (H4 2%nat 3%nat 4%nat 5%nat eq_refl HC) as (post & _ & _ & Hin & _).
    destruct Hin as (r & Hr & Hshape & _); [simpl; lia|].
    exists r. split; [exact Hr|exact Hshape].
  - destruct (imread_selects_channel
                Sample.series_shape Sample.read_exif Sample.open_series Sample.read_with
                "rgb.tif" 3 [] tif_read rgb_array eq_refl Hrd eq_refl) as [H4 _].
    destruct (H4 2%nat 3%nat 4%nat 5%nat eq_refl HC) as (post & _ & _ & _ & Hout).
    destruct Hout as (e & He & Hclass); [simpl; lia|].
    destruct Hclass as [msg ->]; [lia|]. exists msg. exact He.
  - apply (imread_selects_channel
             Sample.series_shape Sample.read_exif Sample.open_series Sample.read_with
             "stack.tif" 0 [] tif_read
             {| nd_shape := [2; 4; 5]%nat; nd_item := Sample.digits |}
             eq_refl Hrd' eq_refl).
    intros Hnd. vm_compute in Hnd. discriminate Hnd.
Defined.

(** C7 (as stated).  [rgb.tif] decodes to a 4-dimensional array, of shape
    (2, 4, 5, 3) once transposed, and [imread('rgb.tif', channel=7)] neither
    returns an array of shape (2, 4, 5) nor fails with
    [NotImplementedError]: it fails with [IndexError]. *)
Lemma imread_channel_out_of_range :
  Sample.read_with tif_read "rgb.tif" = Ok rgb_array ∧
  (∃ post, np_transpose rgb_array [0; 2; 3; 1]%nat = Ok post ∧
     nd_shape post = [2; 4; 5; 3]%nat) ∧
  read "rgb.tif" false (Some 7) []
  = (Err (IndexError "index 7 is out of bounds for axis 3 with size 3"), []) ∧
  ¬ (∃ r, read "rgb.tif" false (Some 7) [] = (Ok (Array r), []) ∧
       nd_shape r = [2; 4; 5]%nat).
Proof.
  assert (read "rgb.tif" false (Some 7) []
          = (Err (IndexError "index 7 is out of bounds for axis 3 with size 3"), []))
    as Herr by (by vm_compute).
  split; [reflexivity|]. split.
  - eexists. split; reflexivity.
  - split; [exact Herr|]. intros (r & Hr & _). rewrite Herr in Hr. discriminate.
Qed.

Lemma len_slices_eq_ndim_witness :
  handle_ok Sample.series_shape Sample.open_series [all3] (stack_handle 0%nat) ∧
  handle_ok Sample.series_shape Sample.open_series
    [all3; [2 :to 5; slice_all; slice_all]] (stack_handle 1%nat) ∧
  handle_ok Sample.series_shape Sample.open_series
    [all3; [2 :to 5; slice_all; slice_all]] (stack_handle 0%nat).
Proof.
  destruct (len_slices_eq_ndim Sample.series_shape Sample.read_exif
              Sample.open_series Sample.asarray) as [Hnew Hops].
  assert (handle_ok Sample.series_shape Sample.open_series [all3]
            (stack_handle 0%nat)) as Hok.
  { apply (Hnew "stack.tif" None []). reflexivity. }
  split; [exact Hok|].
  destruct (Hops _ _ Hok) as [_ Hget].
  destruct (Hget (KSlice (2 :to 5)) (Ok (Handle (stack_handle 1%nat)))
              [all3; [2 :to 5; slice_all; slice_all]] eq_refl) as [Hkeep Hres].
  split; [apply Hres; reflexivity|exact Hkeep].
Defined.

Lemma resolution_rational_or_default_witness :
  tag_resolution (fun q => Ok q)
    (meta_get (Sample.metadata Sample.exif_tags) 283 None) = Ok (PyInt 1) ∧
  (∃ q, (q * Q2Qc (inject_Z 4) = Q2Qc (inject_Z 300))%Qc ∧
     tag_resolution (fun q => Ok q)
       (meta_get (Sample.metadata Sample.exif_tags) 282 None) = Ok (PyFloat q)) ∧
  ∃ msg,
    resolution (fun q => Ok q)
      (Sample.metadata
         {[ 282 := {| tag_name := "XResolution"; tag_value := Some [1; 0] |} ]})
    = Err (ZeroDivisionError msg).
Proof.
  destruct (resolution_rational_or_default (fun q : Qc => Ok q)
              (Sample.metadata Sample.exif_tags)) as (Habsent & Hpair & _).
  destruct (resolution_rational_or_default (fun q : Qc => Ok q)
              (Sample.metadata
                 {[ 282 := {| tag_name := "XResolution";
                              tag_value := Some [1; 0] |} ]}))
    as (_ & _ & _ & _ & Hzero & _).
  split; [apply Habsent; reflexivity|]. split.
  - destruct (Hpair 282 {| tag_name := "XResolution"; tag_value := Some [300; 4] |}
                300 4 eq_refl eq_refl) as (q & Hq & Hres); [lia|].
    exists q. split; [exact Hq|exact Hres].
  - apply (Hzero {| tag_name := "XResolution"; tag_value := Some [1; 0] |} 1);
      reflexivity.
Defined.

(** ** The further statements on the small world *)

Local Abbreviation items_of := (iter_frames Sample.series_shape Sample.asarray).
Local Abbreviation length_of := (len Sample.series_shape).
Local Abbreviation stack_ok :=
  (handle_ok Sample.series_shape Sample.open_series).
Local Abbreviation write_lazy :=
  (imwrite_lazy Sample.series_shape Sample.asarray Sample.to_float
     Sample.meta_dict Sample.tiff_open Sample.tiff_write).
Local Abbreviation backwards := (Slice None None (Some (-1))).
Local Abbreviation bad_handle :=
  ({| filename := "stack.tif"; channel := 1;
      meta := Sample.metadata
                {[ 282 := {| tag_name := "XResolution";
                             tag_value := Some [1; 0] |} ]};
      data := [10; 20; 30]%nat : Sample.series; slices := 0%nat |}).
Local Abbreviation ten := [0; 1; 2; 3; 4; 5; 6; 7; 8; 9].

Lemma slice_length_within_dimension_witness :
  ∃ m, slice_length (Slice (Some 2) None (Some 3)) 10 = Ok m ∧ 0 ≤ m ≤ 10.
Proof.
  apply slice_length_within_dimension; [lia|discriminate].
Defined.

Lemma new_handle_selects_everything_witness :
  slice_shape Sample.series_shape (stack_handle 0%nat) [all3]
  = (Ok [10; 20; 30], [all3]) ∧
  length_of (stack_handle 0%nat) [all3] = (Ok 10, [all3]).
Proof.
  destruct (new_handle_selects_everything
              Sample.series_shape Sample.read_exif Sample.open_series
              "stack.tif" None [] [all3] (stack_handle 0%nat) eq_refl)
    as (_ & Hshape & Hlen).
  split; [exact Hshape|exact (Hlen 10%nat eq_refl)].
Defined.

Lemma iteration_yields_selected_frames_witness :
  ∃ frames,
    items_of (stack_handle 0%nat) [[2 :to 5; slice_all; slice_all]]
    = (Ok frames, [[2 :to 5; slice_all; slice_all]]) ∧
    slice_length (2 :to 5) 10 = Ok (Z.of_nat (length frames)).
Proof.
  destruct (items_of (stack_handle 0%nat) [[2 :to 5; slice_all; slice_all]])
    as [[frames|e] σ'] eqn:Hiter.
  - destruct (iteration_yields_selected_frames
                Sample.series_shape Sample.asarray (stack_handle 0%nat)
                [[2 :to 5; slice_all; slice_all]] σ' (2 :to 5)
                [slice_all; slice_all] 10 2 5 1 frames
                eq_refl eq_refl eq_refl Hiter) as (-> & Hcount & _).
    exists frames. split; [reflexivity|exact Hcount].
  - vm_compute in Hiter. discriminate Hiter.
Defined.

Lemma len_counts_frames_witness :
  ∃ n frames σ1 σ2,
    length_of (stack_handle 0%nat) [[2 :to 5; slice_all; slice_all]] = (Ok n, σ1) ∧
    items_of (stack_handle 0%nat) [[2 :to 5; slice_all; slice_all]]
    = (Ok frames, σ2) ∧
    n = Z.of_nat (length frames).
Proof.
  destruct (items_of (stack_handle 0%nat) [[2 :to 5; slice_all; slice_all]])
    as [[frames|e] σ2] eqn:Hiter; [|vm_compute in Hiter; discriminate Hiter].
  exists 3, frames, [[2 :to 5; slice_all; slice_all]], σ2.
  split; [reflexivity|]. split; [reflexivity|].
  exact (len_counts_frames Sample.series_shape Sample.asarray
           (stack_handle 0%nat) [[2 :to 5; slice_all; slice_all]]
           [[2 :to 5; slice_all; slice_all]] σ2 3 frames eq_refl Hiter).
Defined.

Lemma reversed_slice_reverses_frames_witness :
  ∃ frames,
    items_of (stack_handle 0%nat) [all3; [backwards; slice_all; slice_all]]
    = (Ok frames, [all3; [backwards; slice_all; slice_all]]) ∧
    items_of (stack_handle 1%nat) [all3; [backwards; slice_all; slice_all]]
    = (Ok (reverse frames), [all3; [backwards; slice_all; slice_all]]).
Proof.
  destruct (items_of (stack_handle 0%nat)
              [all3; [backwards; slice_all; slice_all]])
    as [[frames|e] σ'] eqn:Hiter; [|vm_compute in Hiter; discriminate Hiter].
  exists frames. split.
  - rewrite iter_frames_unfold in Hiter. injection Hiter as _ <-.
    reflexivity.
  - exact (reversed_slice_reverses_frames Sample.series_shape Sample.asarray
             (stack_handle 1%nat) (stack_handle 0%nat)
             [all3; [backwards; slice_all; slice_all]] σ'
             [slice_all; slice_all] frames eq_refl eq_refl eq_refl Hiter).
Defined.

Lemma getitem_tuple_too_long_witness :
  ∃ σ',
    index (stack_handle 0%nat)
      (KTuple [slice_all; slice_all; slice_all; 0 :to 1]) [all3]
    = (Err (IndexError "list assignment index out of range"), σ') ∧
    σ' !! 0%nat = Some all3.
Proof.
  apply (getitem_tuple_too_long
           Sample.series_shape Sample.read_exif Sample.open_series Sample.asarray
           (stack_handle 0%nat) [slice_all; slice_all; slice_all; 0 :to 1]
           [all3] all3 3%nat (0 :to 1)).
  - reflexivity.
  - reflexivity.
  - reflexivity.
  - discriminate.
  - simpl. lia.
Defined.

Lemma getitem_tuple_composes_witness :
  ([all3; all3; [2 :to 5; slice_all; slice_all];
    all3; [2 :to 5; 0 :to 10; slice_all]] : list (list pyslice)) !! 4%nat
  = Some (replace_non_default (replace_non_default all3 [2 :to 5])
            [slice_all; 0 :to 10]).
Proof.
  exact (proj1 (getitem_tuple_composes
                  Sample.series_shape Sample.read_exif Sample.open_series
                  Sample.asarray
                  (stack_handle 0%nat) (stack_handle 2%nat) (stack_handle 4%nat)
                  [2 :to 5] [slice_all; 0 :to 10] all3
                  [all3] [all3; all3; [2 :to 5; slice_all; slice_all]]
                  [all3; all3; [2 :to 5; slice_all; slice_all];
                   all3; [2 :to 5; 0 :to 10; slice_all]]
                  eq_refl eq_refl eq_refl)).
Defined.

Lemma handles_keep_file_and_channel_witness :
  new_handle "stack.tif" (Some 0) [] = (Ok (stack_handle 0%nat), [all3]) ∧
  channel (stack_handle 0%nat) = 1.
Proof.
  split; [reflexivity|].
  destruct (proj1 (handles_keep_file_and_channel
                     Sample.series_shape Sample.read_exif Sample.open_series
                     Sample.asarray)
              "stack.tif" (Some 0) [] (stack_handle 0%nat) [all3] eq_refl)
    as (_ & _ & Hzero & _).
  apply Hzero. by right.
Defined.

Lemma getitem_slice_starts_afresh_witness :
  ∃ h' σ',
    index (stack_handle 2%nat) (KSlice (2 :to 5))
      [all3; all3; [slice_all; slice_all; 0 :to 3]] = (Ok (Handle h'), σ') ∧
    σ' !! slices h' = Some [2 :to 5; slice_all; slice_all].
Proof.
  assert (stack_ok [all3; all3; [slice_all; slice_all; 0 :to 3]]
            (stack_handle 2%nat)) as Hok.
  { split; [reflexivity|]. eexists. split; reflexivity. }
  destruct (getitem_slice_starts_afresh
              Sample.series_shape Sample.read_exif Sample.open_series
              Sample.asarray (stack_handle 2%nat) (2 :to 5)
              [all3; all3; [slice_all; slice_all; 0 :to 3]] Hok eq_refl)
    as [_ Hpos].
  apply Hpos. vm_compute. lia.
Defined.

Lemma imread_eager_channels_last_witness :
  ∃ post, read "rgb.tif" false None [] = (Ok (Array post), []) ∧
    nd_shape post = [2; 4; 5; 3]%nat.
Proof.
  assert (eager_readers !! extension "rgb.tif" = Some tif_read) as Hrd
    by (vm_compute; reflexivity).
  pose proof (imread_eager_channels_last
                Sample.series_shape Sample.read_exif Sample.open_series
                Sample.read_with "rgb.tif" [] tif_read eq_refl Hrd) as H.
  unfold Sample.read_with in H.
  destruct (decide ("rgb.tif" = "rgb.tif")) as [_|Hne]; [|by destruct Hne].
  destruct H as [H4 _].
  destruct (H4 2%nat 3%nat 4%nat 5%nat eq_refl) as (post & Hpost & Hshape & _).
  exists post. split; [exact Hpost|exact Hshape].
Defined.

Lemma imread_lazy_tif_witness :
  ∃ h, read "stack.tif" true None [] = (Ok (Lazy h), [all3]) ∧
    stack_ok [all3] h.
Proof.
  pose proof (imread_lazy_tif
                Sample.series_shape Sample.read_exif Sample.open_series
                Sample.read_with "stack.tif" None [] eq_refl eq_refl) as H.
  unfold Sample.read_exif, Sample.open_series in H.
  destruct (decide ("stack.tif" = "stack.tif")) as [_|Hne]; [|by destruct Hne].
  destruct H as (h & Hread & _ & _ & _ & _ & _ & Hok).
  exists h. split; [exact Hread|exact Hok].
Defined.

Lemma imwrite_lazy_writes_iteration_witness :
  ∃ frames r,
    items_of (stack_handle 0%nat) [[2 :to 5; slice_all; slice_all]]
    = (Ok frames, [[2 :to 5; slice_all; slice_all]]) ∧
    write_lazy "out.tif" (stack_handle 0%nat) false
      [[2 :to 5; slice_all; slice_all]]
    = (Ok (), (fun frame => Page frame r Sample.exif_tags) <$> frames) ∧
    length frames = 3%nat.
Proof.
  destruct (items_of (stack_handle 0%nat) [[2 :to 5; slice_all; slice_all]])
    as [[frames|e] σ'] eqn:Hiter; [|vm_compute in Hiter; discriminate Hiter].
  destruct (resolution Sample.to_float (meta (stack_handle 0%nat)))
    as [r|e] eqn:Hr; [|vm_compute in Hr; discriminate Hr].
  exists frames, r.
  destruct (imwrite_lazy_writes_iteration
              Sample.series_shape Sample.asarray Sample.to_float
              Sample.meta_dict Sample.tiff_open Sample.tiff_write
              "out.tif" (stack_handle 0%nat) false
              [[2 :to 5; slice_all; slice_all]] σ' frames r
              eq_refl Hiter (fun _ => Hr)) as [_ Hwrite].
  split; [|split].
  - rewrite iter_frames_unfold in Hiter. injection Hiter as _ <-. reflexivity.
  - apply Hwrite. reflexivity.
  - pose proof (len_counts_frames Sample.series_shape Sample.asarray
                  (stack_handle 0%nat) [[2 :to 5; slice_all; slice_all]]
                  [[2 :to 5; slice_all; slice_all]] σ' 3 frames eq_refl Hiter).
    lia.
Defined.

Lemma imwrite_lazy_writes_a_prefix_witness :
  ∃ written,
    imwrite_lazy Sample.series_shape Sample.broken_asarray Sample.to_float
      Sample.meta_dict Sample.tiff_open Sample.tiff_write
      "out.tif" (stack_handle 0%nat) false [all3]
    = (Err (OSError "corrupted page"), written) ∧
    (length written ≤ 10)%nat ∧
    ∀ j p, written !! j = Some p → ∃ i, ten !! j = Some i.
Proof.
  destruct (imwrite_lazy Sample.series_shape Sample.broken_asarray
              Sample.to_float Sample.meta_dict Sample.tiff_open
              Sample.tiff_write "out.tif" (stack_handle 0%nat) false [all3])
    as [out written] eqn:Hw.
  destruct (imwrite_lazy_writes_a_prefix
              Sample.series_shape Sample.broken_asarray Sample.to_float
              Sample.meta_dict Sample.tiff_open Sample.tiff_write
              "out.tif" (stack_handle 0%nat) false [all3] all3 ten out written
              eq_refl eq_refl Hw) as (Hpages & Hle & _).
  exists written. split; [|split].
  - f_equal. apply (f_equal fst) in Hw. simpl in Hw. rewrite <- Hw. reflexivity.
  - exact Hle.
  - intros j p Hp. destruct (Hpages j p Hp) as (i & Hi & _). by exists i.
Defined.

Lemma imwrite_lazy_bad_resolution_witness :
  write_lazy "out.tif" bad_handle false [all3]
  = (Err (ZeroDivisionError "Fraction(1, 0)"), []) ∧
  write_lazy "out.tif" bad_handle false [[5 :to 5; slice_all; slice_all]]
  = (Ok (), []).
Proof.
  assert (resolution Sample.to_float (meta bad_handle)
          = Err (ZeroDivisionError "Fraction(1, 0)")) as Hr
    by (vm_compute; reflexivity).
  split.
  - destruct (next_frame Sample.series_shape Sample.asarray bad_handle all3 0)
      as [frame|e] eqn:Hf; [|vm_compute in Hf; discriminate Hf].
    destruct (imwrite_lazy_bad_resolution
                Sample.series_shape Sample.asarray Sample.to_float
                Sample.meta_dict Sample.tiff_open Sample.tiff_write
                "out.tif" bad_handle false [all3] all3 ten
                (ZeroDivisionError "Fraction(1, 0)")
                eq_refl eq_refl eq_refl Hr) as [_ Hfirst].
    exact (Hfirst 0 [1; 2; 3; 4; 5; 6; 7; 8; 9] frame eq_refl Hf).
  - destruct (imwrite_lazy_bad_resolution
                Sample.series_shape Sample.asarray Sample.to_float
                Sample.meta_dict Sample.tiff_open Sample.tiff_write
                "out.tif" bad_handle false [[5 :to 5; slice_all; slice_all]]
                [5 :to 5; slice_all; slice_all] []
                (ZeroDivisionError "Fraction(1, 0)")
                eq_refl eq_refl eq_refl Hr) as [Hempty _].
    exact (Hempty eq_refl).
Defined.

Lemma zero_step_is_seen_late_witness :
  ∃ h' σ',
    index (stack_handle 0%nat) (KSlice (Slice None None (Some 0))) [all3]
    = (Ok (Handle h'), σ') ∧
    length_of h' σ' = (Err (ValueError "slice step cannot be zero"), σ') ∧
    items_of h' σ' = (Err (ValueError "slice step cannot be zero"), σ').
Proof.
  assert (stack_ok [all3] (stack_handle 0%nat)) as Hok.
  { split; [reflexivity|]. eexists. split; reflexivity. }
  apply (zero_step_is_seen_late
           Sample.series_shape Sample.read_exif Sample.open_series Sample.asarray
           (stack_handle 0%nat) (Slice None None (Some 0)) [all3] Hok eq_refl).
  - vm_compute. lia.
  - reflexivity.
Defined.

Lemma frames_have_slice_shape_witness :
  ∃ frames,
    items_of (stack_handle 0%nat) [[2 :to 5; 0 :to 10; slice_all]]
    = (Ok frames, [[2 :to 5; 0 :to 10; slice_all]]) ∧
    ∀ frame, frame ∈ frames → Z.of_nat <$> nd_shape frame = [10; 30].
Proof.
  destruct (items_of (stack_handle 0%nat) [[2 :to 5; 0 :to 10; slice_all]])
    as [[frames|e] σ'] eqn:Hiter; [|vm_compute in Hiter; discriminate Hiter].
  exists frames. split.
  - rewrite iter_frames_unfold in Hiter. injection Hiter as _ <-. reflexivity.
  - apply (frames_have_slice_shape
             Sample.series_shape Sample.asarray (stack_handle 0%nat)
             [[2 :to 5; 0 :to 10; slice_all]]
             [[2 :to 5; 0 :to 10; slice_all]] σ'
             (2 :to 5) [0 :to 10; slice_all] 3 [10; 30] frames);
      [reflexivity|reflexivity| |reflexivity|exact Hiter].
    intros i raw Hget. unfold get, decode_frame in Hget. simpl in Hget.
    destruct (negb _); [discriminate Hget|].
    unfold Sample.asarray in Hget.
    destruct (_ || _); [discriminate Hget|].
    injection Hget as <-. reflexivity.
Defined.

Local Abbreviation sample_writer :=
  (fun (w : writer) (f : string) (d : @image Sample.series)
       (m : option Metadata) (kw : ()) (σ : list (list pyslice)) => (Ok w, σ)).

Lemma imwrite_dispatch_witness :
  imwrite sample_writer "movie.tiff" (Array rgb_array) None (1 : Z) 30 () []
  = (Err (NotImplementedError "Cannot write image of type tiff"), []) ∧
  imwrite sample_writer "movie.mp4" (Array rgb_array) None (1 : Z) 30 () []
  = (Ok mp4_write, []) ∧
  imwrite sample_writer "movie" (Array rgb_array) None (1 : Z) 30 () []
  = (Err (ValueError "missing extension in filename: movie"), []).
Proof.
  split; [|split].
  - destruct (imwrite_dispatch sample_writer "movie.tiff" (Array rgb_array)
                None (1 : Z) 30 () []) as [_ Hdot].
    destruct (Hdot eq_refl) as (_ & _ & Hother).
    apply Hother; intros Hext; vm_compute in Hext; discriminate Hext.
  - destruct (imwrite_dispatch sample_writer "movie.mp4" (Array rgb_array)
                None (1 : Z) 30 () []) as [_ Hdot].
    destruct (Hdot eq_refl) as (_ & Hmp4 & _).
    apply Hmp4. reflexivity.
  - destruct (imwrite_dispatch sample_writer "movie" (Array rgb_array)
                None (1 : Z) 30 () []) as [Hnodot _].
    apply Hnodot. reflexivity.
Defined.

